(** * Collaborative canvas: the operation log, the server relay and the
      client mirror, embedded from the TypeScript sources.

    - [JS]           the few JavaScript notions the handlers rely on
                     (truthiness, [typeof], [Math.max]/[Math.min], [Map]);
    - [DrawingState] src/server/drawing-state.ts;
    - [Rooms]        the room manager imported by the server as './rooms';
    - [Server]       src/server/server.ts, one function per socket handler;
    - [Client]       the operation lists of [CanvasManager] in
                     src/client/main.ts;
    - [Observe]      what the statements below are phrased with (the log
                     of a room, the invariants) and the sample data.

    Then the properties: the operation log, undo, the relay handler by
    handler, what every handler preserves, worked instances, the mirror.

    Numbers are finite JavaScript numbers, modelled as rationals: the code
    only compares and clamps them.  Strings are sequences of code units.
    [Date.now()] and [uuidv4()] are inputs of the handler that calls them. *)

From Stdlib Require Import QArith Qminmax Ascii String.
From stdpp Require Import gmap strings list fin_maps.

(* ===================================================================== *)
(** ** JavaScript values as the handlers see them                         *)
(* ===================================================================== *)

Module JS.

(** A field of an inbound payload before the handler has checked it:
    the scalars JSON can carry, and [JUndefined] for a field that is absent. *)
Inductive jsval : Type :=
| JUndefined
| JNull
| JBool (b : bool)
| JNum (q : Q)
| JStr (s : string).

(** The result of an arithmetic builtin: a finite number or NaN. *)
Inductive jsnum : Type :=
| Fin (q : Q)
| NaN.

(** ToBoolean: what [if (v)], [!v] and [v || d] test. *)
Definition truthy (v : jsval) : bool :=
  match v with
  | JUndefined | JNull => false
  | JBool b => b
  | JNum q => negb (Qeq_bool q 0)
  | JStr s => negb (String.eqb s "")
  end.

(** Truthiness of a value typed [string]: only the empty string is falsy. *)
Definition truthy_str (s : string) : bool := negb (String.eqb s "").

(** Truthiness of an optional string ([userId?: string], [userName?]). *)
Definition truthy_ostr (o : option string) : bool :=
  match o with
  | Some s => truthy_str s
  | None => false
  end.

(** [v || d] *)
Definition or_else (v d : jsval) : jsval := if truthy v then v else d.

(** [typeof v === 'number'] and [typeof v === 'string'] *)
Definition is_number (v : jsval) : bool :=
  match v with JNum _ => true | _ => false end.

Definition is_string (v : jsval) : bool :=
  match v with JStr _ => true | _ => false end.

(** [Math.max(a, b)] and [Math.min(a, b)] on finite numbers. *)
Definition Qmax2 (a b : Q) : Q := if Qle_bool b a then a else b.
Definition Qmin2 (a b : Q) : Q := if Qle_bool a b then a else b.

(** The same on builtin results: NaN is contagious. *)
Definition Math_max (a b : jsnum) : jsnum :=
  match a, b with
  | Fin p, Fin q => Fin (Qmax2 p q)
  | _, _ => NaN
  end.

Definition Math_min (a b : jsnum) : jsnum :=
  match a, b with
  | Fin p, Fin q => Fin (Qmin2 p q)
  | _, _ => NaN
  end.

Section ToNumber.
(** The numeric value of a string (ECMAScript StringToNumber) is a
    builtin of the language; the handlers never depend on which one. *)
Variable StringToNumber : string -> jsnum.

(** ToNumber, applied by [Math.min] and [Math.max] to their arguments. *)
Definition ToNumber (v : jsval) : jsnum :=
  match v with
  | JUndefined => NaN
  | JNull => Fin 0
  | JBool b => Fin (if b then 1 else 0)
  | JNum q => Fin q
  | JStr s => StringToNumber s
  end.
End ToNumber.

(** A [Map<string, V>] keeps its keys in insertion order: [set] on a key
    that is present replaces the value where it stands. *)
Definition Map (V : Type) : Type := list (string * V).

Fixpoint Map_get {V} (m : Map V) (k : string) : option V :=
  match m with
  | [] => None
  | (k', v) :: m' => if String.eqb k' k then Some v else Map_get m' k
  end.

Definition Map_has {V} (m : Map V) (k : string) : bool :=
  match Map_get m k with Some _ => true | None => false end.

Fixpoint Map_set {V} (m : Map V) (k : string) (v : V) : Map V :=
  match m with
  | [] => [(k, v)]
  | (k', v') :: m' =>
      if String.eqb k' k then (k, v) :: m' else (k', v') :: Map_set m' k v
  end.

Fixpoint Map_delete {V} (m : Map V) (k : string) : Map V :=
  match m with
  | [] => []
  | (k', v') :: m' =>
      if String.eqb k' k then m' else (k', v') :: Map_delete m' k
  end.

Definition Map_values {V} (m : Map V) : list V := m.*2.

End JS.

(* ===================================================================== *)
(** ** src/server/drawing-state.ts                                        *)
(* ===================================================================== *)

Module DrawingState.
Import JS.

Inductive OpType : Type :=
| draw | erase | clear | rectangle | circle | text_op | image.

Record Point : Type := mkPoint {
  x : Q;
  y : Q;
  pressure : option Q
}.

Record DrawingOperation : Type := mkOp {
  id : string;
  userId : string;
  type : OpType;
  timestamp : Z;
  path : option (list Point);
  color : option string;
  lineWidth : option jsnum;
  eraserRadius : option Q;
  startPoint : option Point;
  endPoint : option Point;
  text : option string;
  fontSize : option Q;
  imageData : option string;
  imageWidth : option Q;
  imageHeight : option Q
}.

Record UserInfo : Type := mkUser {
  user_id : string;
  user_name : string;
  user_color : string;
  cursorPosition : option Point;
  lastSeen : Z
}.

Record RoomState : Type := mkRoom {
  operations : list DrawingOperation;
  users : Map UserInfo
}.

Definition set_operations (s : RoomState) (ops : list DrawingOperation) : RoomState :=
  {| operations := ops; users := users s |}.

Definition set_users (s : RoomState) (us : Map UserInfo) : RoomState :=
  {| operations := operations s; users := us |}.

(** The manager's only mutable field: [rooms: Map<string, RoomState>].
    It is never iterated, so a finite map is enough. *)
Abbreviation Manager := (gmap string RoomState).

Definition MAX_OPERATIONS : nat := 500.
Definition USER_TIMEOUT : Z := 30000.

Definition new_manager : Manager := ∅.

Definition empty_room : RoomState := {| operations := []; users := [] |}.

(** [getRoomState]: creates the room when it is not there yet, and
    returns its state together with the manager after the call. *)
Definition getRoomState (m : Manager) (roomId : string) : RoomState * Manager :=
  match m !! roomId with
  | Some s => (s, m)
  | None => (empty_room, <[roomId := empty_room]> m)
  end.

(** [addOperation]: [push], then one [shift] when the length passed
    [MAX_OPERATIONS]. *)
Definition addOperation (m : Manager) (roomId : string) (operation : DrawingOperation)
  : Manager :=
  let '(state, m1) := getRoomState m roomId in
  let pushed := operations state ++ [operation] in
  let trimmed :=
    if decide (MAX_OPERATIONS < length pushed)%nat then drop 1 pushed else pushed in
  <[roomId := set_operations state trimmed]> m1.

Definition getOperations (m : Manager) (roomId : string)
  : list DrawingOperation * Manager :=
  let '(state, m1) := getRoomState m roomId in (operations state, m1).

(** The loop of [undoOperation]:
    [while (index >= 0 && operations[index].userId !== userId) index--].
    [scan_back ops u n] runs it from [index = n - 1]; [None] is [index < 0]. *)
Fixpoint scan_back (ops : list DrawingOperation) (u : string) (n : nat) : option nat :=
  match n with
  | O => None
  | S index =>
      match ops !! index with
      | Some op => if String.eqb (userId op) u then Some index else scan_back ops u index
      | None => None (* not reached: the loop starts below [operations.length] *)
      end
  end.

(** [undoOperation(roomId, userId?)]: the operation removed, or [None]
    for [null], and the manager after the call. *)
Definition undoOperation (m : Manager) (roomId : string) (uid : option string)
  : option DrawingOperation * Manager :=
  let '(state, m1) := getRoomState m roomId in
  let ops := operations state in
  if (length ops =? 0)%nat then (None, m1)
  else
    let index :=
      if truthy_ostr uid
      then scan_back ops (default "" uid) (length ops)
      else Some (length ops - 1)%nat in
    match index with
    | None => (None, m1)
    | Some i =>
        match ops !! i with
        | Some operation =>
            (Some operation, <[roomId := set_operations state (delete i ops)]> m1)
        | None => (None, m1)
        end
    end.

(** [addUser] *)
Definition addUser (m : Manager) (roomId uid userName ucolor : string) (now : Z)
  : Manager :=
  let '(state, m1) := getRoomState m roomId in
  let u := {| user_id := uid; user_name := userName; user_color := ucolor;
              cursorPosition := None; lastSeen := now |} in
  <[roomId := set_users state (Map_set (users state) uid u)]> m1.

(** [removeUser] *)
Definition removeUser (m : Manager) (roomId uid : string) : Manager :=
  let '(state, m1) := getRoomState m roomId in
  <[roomId := set_users state (Map_delete (users state) uid)]> m1.

(** [updateUserCursor] *)
Definition updateUserCursor (m : Manager) (roomId uid : string) (position : Point)
  (now : Z) : Manager :=
  let '(state, m1) := getRoomState m roomId in
  match Map_get (users state) uid with
  | Some user =>
      let user' := {| user_id := user_id user; user_name := user_name user;
                      user_color := user_color user;
                      cursorPosition := Some position; lastSeen := now |} in
      <[roomId := set_users state (Map_set (users state) uid user')]> m1
  | None => m1
  end.

(** [cleanupInactiveUsers]: every user last seen more than
    [USER_TIMEOUT] ms ago is deleted. *)
Definition cleanupInactiveUsers (m : Manager) (roomId : string) (now : Z) : Manager :=
  let '(state, m1) := getRoomState m roomId in
  let inactiveUsers :=
    (filter (λ kv, USER_TIMEOUT < now - lastSeen kv.2)%Z (users state)).*1 in
  <[roomId := set_users state (foldl Map_delete (users state) inactiveUsers)]> m1.

(** [getStateSnapshot]: a copy of the log and the users in insertion order. *)
Definition getStateSnapshot (m : Manager) (roomId : string)
  : (list DrawingOperation * list UserInfo) * Manager :=
  let '(state, m1) := getRoomState m roomId in
  ((operations state, Map_values (users state)), m1).

(** [getUsers] *)
Definition getUsers (m : Manager) (roomId : string) : list UserInfo * Manager :=
  let '(state, m1) := getRoomState m roomId in (Map_values (users state), m1).

End DrawingState.

(* ===================================================================== *)
(** ** The room manager ('./rooms')                                       *)
(* ===================================================================== *)

Module Rooms.
Import JS.

Record RoomConfig : Type := mkConfig {
  room_id : string;
  room_name : string;
  maxUsers : option nat;
  createdAt : Z
}.

Record RoomManager : Type := mkRoomManager {
  rooms : Map RoomConfig;
  userColors : gmap string string;
  colorIndex : nat
}.

Definition DEFAULT_COLORS : list string :=
  ["#FF6B6B"; "#4ECDC4"; "#45B7D1"; "#FFA07A"; "#98D8C8";
   "#F7DC6F"; "#BB8FCE"; "#85C1E2"; "#F8B739"; "#52BE80"].

Definition new_room_manager : RoomManager :=
  {| rooms := []; userColors := ∅; colorIndex := 0 |}.

(** [createRoom(roomId, roomName?)] *)
Definition createRoom (rm : RoomManager) (roomId : string) (roomName : option string)
  (now : Z) : RoomManager :=
  let config :=
    {| room_id := roomId;
       room_name := if truthy_ostr roomName then default "" roomName
                    else "Room " +:+ roomId;
       maxUsers := None;
       createdAt := now |} in
  {| rooms := Map_set (rooms rm) roomId config;
     userColors := userColors rm;
     colorIndex := colorIndex rm |}.

Definition roomExists (rm : RoomManager) (roomId : string) : bool :=
  Map_has (rooms rm) roomId.

(** [assignUserColor]: the color the user already has, else the next one
    of the palette. *)
Definition assignUserColor (rm : RoomManager) (uid : string) : string * RoomManager :=
  match userColors rm !! uid with
  | Some c => (c, rm)
  | None =>
      let c := default "" (DEFAULT_COLORS !! (colorIndex rm mod length DEFAULT_COLORS)%nat) in
      (c, {| rooms := rooms rm;
             userColors := <[uid := c]> (userColors rm);
             colorIndex := S (colorIndex rm) |})
  end.

Definition releaseUserColor (rm : RoomManager) (uid : string) : RoomManager :=
  {| rooms := rooms rm;
     userColors := delete uid (userColors rm);
     colorIndex := colorIndex rm |}.

(** [getRoom], [getUserColor], [getAllRooms] and [deleteRoom] *)
Definition getRoom (rm : RoomManager) (roomId : string) : option RoomConfig :=
  Map_get (rooms rm) roomId.

Definition getUserColor (rm : RoomManager) (uid : string) : option string :=
  userColors rm !! uid.

Definition getAllRooms (rm : RoomManager) : list RoomConfig :=
  Map_values (rooms rm).

Definition deleteRoom (rm : RoomManager) (roomId : string) : RoomManager :=
  {| rooms := Map_delete (rooms rm) roomId;
     userColors := userColors rm;
     colorIndex := colorIndex rm |}.

End Rooms.

(* ===================================================================== *)
(** ** src/server/server.ts                                               *)
(* ===================================================================== *)

Module Server.
Import JS DrawingState Rooms.

(** The two module-level singletons. *)
Record State : Type := mkState {
  drawingState : Manager;
  roomManager : RoomManager
}.

(** What one connection's closure holds, and the rooms its socket is in. *)
Record Conn : Type := mkConn {
  currentRoom : string;
  conn_userId : string;
  userName : string;
  userColor : string;
  socketRooms : gset string
}.

(** The clock and the id generator, as the handler reads them:
    [Date_now k] is the value of the (k+1)-th [Date.now()] of the call. *)
Record Env : Type := mkEnv {
  Date_now : nat -> Z;
  uuidv4 : string
}.

(** [socket.emit], [socket.to(room).emit] and [io.to(room).emit]. *)
Inductive Target : Type :=
| ToSender
| ToOthersIn (room : string)
| ToEveryoneIn (room : string).

Inductive Payload : Type :=
| PError (message : string)
| PRoomState (ops : list DrawingOperation) (us : list UserInfo)
| PUserJoined (uid uname ucolor : string)
| PUserLeft (uid : string)
| POperation (op : DrawingOperation)
| PDrawProgress (operationId : string) (point : Point)
| PDrawEnd (operationId uid : string)
| PCursorMove (uid : string) (point : Point) (ucolor : string)
| PUndo (operationId uid : string)
| PUserNameChanged (uid uname : string)
| PPong (ts : Q).

Record Emit : Type := mkEmit {
  target : Target;
  event : string;
  payload : Payload
}.

(** Whether an emit reaches the socket that sent the message. *)
Definition reaches_sender (e : Emit) (c : Conn) : bool :=
  match target e with
  | ToSender => true
  | ToOthersIn _ => false
  | ToEveryoneIn room => bool_decide (room ∈ socketRooms c)
  end.

Definition Result : Type := State * Conn * list Emit.

Definition DEFAULT_ROOM : string := "default".

Definition error_to_sender (msg : string) : Emit :=
  {| target := ToSender; event := "error"; payload := PError msg |}.

Definition with_drawingState (st : State) (m : Manager) : State :=
  {| drawingState := m; roomManager := roomManager st |}.

(** *** Payloads as they arrive *)

(** A point whose coordinates the handler still has to check. *)
Record RawPoint : Type := mkRawPoint {
  raw_x : jsval;
  raw_y : jsval
}.

(** [join-room]: anything that is not an object, or an object with its
    [roomId] and [userName] fields. *)
Inductive JoinRoomData : Type :=
| JoinNotObject (v : jsval)
| JoinObject (roomId : jsval) (newName : option string).

Record DrawStartData : Type := mkDrawStart {
  ds_point : option RawPoint;
  ds_color : jsval;
  ds_lineWidth : jsval;
  ds_operationId : option string
}.

Record DrawProgressData : Type := mkDrawProgress {
  dp_operationId : option string;
  dp_point : option RawPoint
}.

Record EraseData : Type := mkErase {
  er_point : Point;
  er_radius : Q
}.

(** *** Helpers *)

(** The class [a-zA-Z0-9-_] of the sanitizing expression. *)
Definition in_range (lo hi c : ascii) : bool :=
  (nat_of_ascii lo <=? nat_of_ascii c)%nat && (nat_of_ascii c <=? nat_of_ascii hi)%nat.

Definition room_char (c : ascii) : bool :=
  in_range "a"%char "z"%char c || in_range "A"%char "Z"%char c || in_range "0"%char "9"%char c
  || Ascii.eqb c "-"%char || Ascii.eqb c "_"%char.

(** [roomId.replace(/[^a-zA-Z0-9-_]/g, '')] *)
Fixpoint sanitize (s : string) : string :=
  match s with
  | EmptyString => EmptyString
  | String ch rest =>
      if room_char ch then String ch (sanitize rest) else sanitize rest
  end.

(** [Math.max(0, q)] for a coordinate. *)
Definition clamp0 (q : Q) : Q := Qmax2 0 q.

(** A record with only the fields every operation has. *)
Definition bare_op (oid uid : string) (ty : OpType) (ts : Z) : DrawingOperation :=
  {| id := oid; userId := uid; type := ty; timestamp := ts;
     path := None; color := None; lineWidth := None; eraserRadius := None;
     startPoint := None; endPoint := None; text := None; fontSize := None;
     imageData := None; imageWidth := None; imageHeight := None |}.

(** [operation.path = p] with every other field kept. *)
Definition set_path (op : DrawingOperation) (p : list Point) : DrawingOperation :=
  {| id := id op; userId := userId op; type := type op; timestamp := timestamp op;
     path := Some p; color := color op; lineWidth := lineWidth op;
     eraserRadius := eraserRadius op; startPoint := startPoint op;
     endPoint := endPoint op; text := text op; fontSize := fontSize op;
     imageData := imageData op; imageWidth := imageWidth op;
     imageHeight := imageHeight op |}.

(** [operation.id = ...; operation.userId = ...; operation.timestamp = ...]
    on the object that was received. *)
Definition stamp (op : DrawingOperation) (oid uid : string) (ts : Z) : DrawingOperation :=
  {| id := oid; userId := uid; type := type op; timestamp := ts;
     path := path op; color := color op; lineWidth := lineWidth op;
     eraserRadius := eraserRadius op; startPoint := startPoint op;
     endPoint := endPoint op; text := text op; fontSize := fontSize op;
     imageData := imageData op; imageWidth := imageWidth op;
     imageHeight := imageHeight op |}.

(** [{ x: p.x, y: p.y }] *)
Definition xy_only (p : Point) : Point :=
  {| x := x p; y := y p; pressure := None |}.

(** *** The handlers

    Each takes the two singletons and the connection's closure, and
    returns them after the call with the events emitted, in order. *)

(** [io.on('connection', ...)], up to the registration of the handlers.
    A new socket is in the room named after its own id. *)
Definition on_connection (st : State) (socket_id : string) (env : Env) : Result :=
  let currentRoom := DEFAULT_ROOM in
  let uid := socket_id in
  let uname := "User " +:+ String.substring 0 6 socket_id in
  let existed := roomExists (roomManager st) currentRoom in
  let rm1 :=
    if existed then roomManager st
    else createRoom (roomManager st) currentRoom None (Date_now env 0) in
  let '(ucolor, rm2) := assignUserColor rm1 uid in
  let '((ops, us), m1) := getStateSnapshot (drawingState st) currentRoom in
  let m2 := addUser m1 currentRoom uid uname ucolor
              (Date_now env (if existed then 0 else 1)%nat) in
  ({| drawingState := m2; roomManager := rm2 |},
   {| currentRoom := currentRoom; conn_userId := uid; userName := uname;
      userColor := ucolor; socketRooms := {[socket_id]} ∪ {[currentRoom]} |},
   [ {| target := ToSender; event := "room-state"; payload := PRoomState ops us |};
     {| target := ToOthersIn currentRoom; event := "user-joined";
        payload := PUserJoined uid uname ucolor |} ]).

(** [socket.on('join-room', ...)] *)
Definition on_join_room (st : State) (c : Conn) (env : Env) (data : JoinRoomData)
  : Result :=
  match data with
  | JoinNotObject _ => (st, c, [error_to_sender "Invalid join-room data"])
  | JoinObject roomId newName =>
      match roomId with
      | JStr rid =>
          if negb (truthy roomId) || (50 <? String.length rid)%nat
          then (st, c, [error_to_sender "Invalid room ID"])
          else if negb (String.eqb (sanitize rid) rid)
          then (st, c, [error_to_sender "Room ID contains invalid characters"])
          else
            let oldRoom := currentRoom c in
            let existed := roomExists (roomManager st) rid in
            let rm1 :=
              if existed then roomManager st
              else createRoom (roomManager st) rid None (Date_now env 0) in
            let uname :=
              if truthy_ostr newName then default "" newName else userName c in
            let '(newUserColor, rm2) := assignUserColor rm1 (conn_userId c) in
            let m1 := addUser (drawingState st) rid (conn_userId c) uname newUserColor
                        (Date_now env (if existed then 0 else 1)%nat) in
            let '((ops, us), m2) := getStateSnapshot m1 rid in
            ({| drawingState := m2; roomManager := rm2 |},
             {| currentRoom := rid; conn_userId := conn_userId c; userName := uname;
                userColor := userColor c;
                socketRooms := (socketRooms c ∖ {[oldRoom]}) ∪ {[rid]} |},
             [ {| target := ToOthersIn oldRoom; event := "user-left";
                  payload := PUserLeft (conn_userId c) |};
               {| target := ToSender; event := "room-state";
                  payload := PRoomState ops us |};
               {| target := ToOthersIn rid; event := "user-joined";
                  payload := PUserJoined (conn_userId c) uname newUserColor |} ])
      | _ => (st, c, [error_to_sender "Invalid room ID"])
      end
  end.

Section DrawStart.
Variable StringToNumber : string -> jsnum.

(** [Math.max(1, Math.min(100, data.lineWidth || 5))] *)
Definition clamp_lineWidth (w : jsval) : jsnum :=
  Math_max (Fin 1) (Math_min (Fin 100) (ToNumber StringToNumber (or_else w (JNum 5)))).

(** The operation the [draw-start] handler builds from a payload whose
    point has numeric coordinates [px] and [py]. *)
Definition draw_start_operation (c : Conn) (env : Env) (d : DrawStartData) (px py : Q)
  : DrawingOperation :=
  let color := match ds_color d with JStr s => s | _ => "#000000" end in
  let lineWidth := clamp_lineWidth (ds_lineWidth d) in
  let point := {| x := clamp0 px; y := clamp0 py; pressure := None |} in
  let operationId :=
    if truthy_ostr (ds_operationId d) then default "" (ds_operationId d)
    else uuidv4 env in
  {| id := operationId; userId := conn_userId c; type := draw;
     timestamp := Date_now env 0;
     path := Some [point]; color := Some color; lineWidth := Some lineWidth;
     eraserRadius := None; startPoint := None; endPoint := None; text := None;
     fontSize := None; imageData := None; imageWidth := None;
     imageHeight := None |}.

(** [socket.on('draw-start', ...)] *)
Definition on_draw_start (st : State) (c : Conn) (env : Env)
  (data : option DrawStartData) : Result :=
  match data with
  | Some d =>
      match ds_point d with
      | Some {| raw_x := JNum px; raw_y := JNum py |} =>
          let operation := draw_start_operation c env d px py in
          (with_drawingState st (addOperation (drawingState st) (currentRoom c) operation),
           c,
           [ {| target := ToOthersIn (currentRoom c); event := "draw-start";
                payload := POperation operation |} ])
      | _ => (st, c, [error_to_sender "Invalid draw-start data"])
      end
  | None => (st, c, [error_to_sender "Invalid draw-start data"])
  end.
End DrawStart.

(** [state.operations.find(op => op.id === data.operationId)], with the
    index at which the operation found stands in the log. *)
Definition find_operation (ops : list DrawingOperation) (operationId : string)
  : option (nat * DrawingOperation) :=
  list_find (λ op, id op = operationId) ops.

(** [socket.on('draw-progress', ...)] *)
Definition on_draw_progress (st : State) (c : Conn) (data : option DrawProgressData)
  : Result :=
  match data with
  | Some d =>
      if negb (truthy_ostr (dp_operationId d)) then (st, c, [])
      else
        match dp_point d with
        | Some {| raw_x := JNum px; raw_y := JNum py |} =>
            let operationId := default "" (dp_operationId d) in
            let '(state, m1) := getRoomState (drawingState st) (currentRoom c) in
            match find_operation (operations state) operationId with
            | Some (i, operation) =>
                match String.eqb (userId operation) (conn_userId c), path operation with
                | true, Some p =>
                    if (Z.of_nat (length p) <? 10000)%Z then
                      let newPoint :=
                        {| x := clamp0 px; y := clamp0 py; pressure := None |} in
                      let operation' := set_path operation (p ++ [newPoint]) in
                      let state' :=
                        set_operations state (<[i := operation']> (operations state)) in
                      (with_drawingState st (<[currentRoom c := state']> m1), c,
                       [ {| target := ToOthersIn (currentRoom c);
                            event := "draw-progress";
                            payload := PDrawProgress operationId newPoint |} ])
                    else (with_drawingState st m1, c, [])
                | _, _ => (with_drawingState st m1, c, [])
                end
            | None => (with_drawingState st m1, c, [])
            end
        | _ => (st, c, [])
        end
  | None => (st, c, [])
  end.

(** [socket.on('draw-end', ...)] *)
Definition on_draw_end (st : State) (c : Conn) (operationId : string) : Result :=
  (st, c,
   [ {| target := ToOthersIn (currentRoom c); event := "draw-end";
        payload := PDrawEnd operationId (conn_userId c) |} ]).

(** [socket.on('erase', ...)] *)
Definition on_erase (st : State) (c : Conn) (env : Env) (data : EraseData) : Result :=
  let operation :=
    {| id := uuidv4 env; userId := conn_userId c; type := erase;
       timestamp := Date_now env 0;
       path := Some [er_point data]; color := None; lineWidth := None;
       eraserRadius := Some (er_radius data);
       startPoint := None; endPoint := None; text := None; fontSize := None;
       imageData := None; imageWidth := None; imageHeight := None |} in
  (with_drawingState st (addOperation (drawingState st) (currentRoom c) operation), c,
   [ {| target := ToOthersIn (currentRoom c); event := "erase";
        payload := POperation operation |} ]).

(** [socket.on('shape', ...)] *)
Definition on_shape (st : State) (c : Conn) (env : Env)
  (data : option DrawingOperation) : Result :=
  match data with
  | Some operation =>
      match startPoint operation, endPoint operation with
      | Some sp, Some ep =>
          let shapeOperation :=
            {| id := if truthy_str (id operation) then id operation else uuidv4 env;
               userId := conn_userId c; type := type operation;
               timestamp := Date_now env 0;
               path := None; color := color operation;
               lineWidth := lineWidth operation; eraserRadius := None;
               startPoint := Some (xy_only sp); endPoint := Some (xy_only ep);
               text := None; fontSize := None; imageData := None;
               imageWidth := None; imageHeight := None |} in
          (with_drawingState st
             (addOperation (drawingState st) (currentRoom c) shapeOperation), c,
           [ {| target := ToOthersIn (currentRoom c); event := "shape";
                payload := POperation shapeOperation |} ])
      | _, _ => (st, c, [error_to_sender "Invalid shape data"])
      end
  | None => (st, c, [error_to_sender "Invalid shape data"])
  end.

(** The common body of the [text] and [image] handlers once the payload
    has passed its check. *)
Definition stamp_and_store (st : State) (c : Conn) (env : Env) (ev : string)
  (operation : DrawingOperation) : Result :=
  let operation' :=
    stamp operation
      (if truthy_str (id operation) then id operation else uuidv4 env)
      (conn_userId c) (Date_now env 0) in
  (with_drawingState st (addOperation (drawingState st) (currentRoom c) operation'), c,
   [ {| target := ToOthersIn (currentRoom c); event := ev;
        payload := POperation operation' |} ]).

(** [socket.on('text', ...)] *)
Definition on_text (st : State) (c : Conn) (env : Env)
  (data : option DrawingOperation) : Result :=
  match data with
  | Some operation =>
      match text operation, startPoint operation with
      | Some t, Some _ =>
          if truthy_str t then stamp_and_store st c env "text" operation
          else (st, c, [error_to_sender "Invalid text data"])
      | _, _ => (st, c, [error_to_sender "Invalid text data"])
      end
  | None => (st, c, [error_to_sender "Invalid text data"])
  end.

(** [socket.on('image', ...)] *)
Definition on_image (st : State) (c : Conn) (env : Env)
  (data : option DrawingOperation) : Result :=
  match data with
  | Some operation =>
      match imageData operation, startPoint operation with
      | Some d, Some _ =>
          if truthy_str d then stamp_and_store st c env "image" operation
          else (st, c, [error_to_sender "Invalid image data"])
      | _, _ => (st, c, [error_to_sender "Invalid image data"])
      end
  | None => (st, c, [error_to_sender "Invalid image data"])
  end.

(** [socket.on('ping', ...)] *)
Definition on_ping (st : State) (c : Conn) (ts : Q) : Result :=
  (st, c, [ {| target := ToSender; event := "pong"; payload := PPong ts |} ]).

(** [socket.on('clear-canvas', ...)] *)
Definition on_clear_canvas (st : State) (c : Conn) (env : Env) : Result :=
  let operation := bare_op (uuidv4 env) (conn_userId c) clear (Date_now env 0) in
  let m1 := addOperation (drawingState st) (currentRoom c) operation in
  let '(state, m2) := getRoomState m1 (currentRoom c) in
  (with_drawingState st (<[currentRoom c := set_operations state [operation]]> m2), c,
   [ {| target := ToEveryoneIn (currentRoom c); event := "clear-canvas";
        payload := POperation operation |} ]).

(** [socket.on('cursor-move', ...)] *)
Definition on_cursor_move (st : State) (c : Conn) (env : Env) (point : Point) : Result :=
  (with_drawingState st
     (updateUserCursor (drawingState st) (currentRoom c) (conn_userId c) point
        (Date_now env 0)), c,
   [ {| target := ToOthersIn (currentRoom c); event := "cursor-move";
        payload := PCursorMove (conn_userId c) point (userColor c) |} ]).

(** [socket.on('undo', ...)] *)
Definition on_undo (st : State) (c : Conn) : Result :=
  let '(undoneOp, m1) :=
    undoOperation (drawingState st) (currentRoom c) (Some (conn_userId c)) in
  match undoneOp with
  | Some op =>
      (with_drawingState st m1, c,
       [ {| target := ToEveryoneIn (currentRoom c); event := "undo";
            payload := PUndo (id op) (userId op) |} ])
  | None => (with_drawingState st m1, c, [])
  end.

(** [socket.on('set-name', ...)] *)
Definition on_set_name (st : State) (c : Conn) (newName : string) : Result :=
  (st,
   {| currentRoom := currentRoom c; conn_userId := conn_userId c; userName := newName;
      userColor := userColor c; socketRooms := socketRooms c |},
   [ {| target := ToOthersIn (currentRoom c); event := "user-name-changed";
        payload := PUserNameChanged (conn_userId c) newName |} ]).

(** [socket.on('disconnect', ...)] *)
Definition on_disconnect (st : State) (c : Conn) : Result :=
  ({| drawingState := removeUser (drawingState st) (currentRoom c) (conn_userId c);
      roomManager := releaseUserColor (roomManager st) (conn_userId c) |}, c,
   [ {| target := ToOthersIn (currentRoom c); event := "user-left";
        payload := PUserLeft (conn_userId c) |} ]).

(** *** One message of one connection *)

Inductive Message : Type :=
| JoinRoom (data : JoinRoomData)
| DrawStart (data : option DrawStartData)
| DrawProgress (data : option DrawProgressData)
| DrawEnd (operationId : string)
| Erase (data : EraseData)
| Shape (data : option DrawingOperation)
| Text (data : option DrawingOperation)
| Image (data : option DrawingOperation)
| Ping (ts : Q)
| ClearCanvas
| CursorMove (point : Point)
| Undo
| SetName (newName : string)
| Disconnect.

(** The handler registered for the event of the message. *)
Definition handle (StringToNumber : string -> jsnum) (st : State) (c : Conn) (env : Env)
  (msg : Message) : Result :=
  match msg with
  | JoinRoom data => on_join_room st c env data
  | DrawStart data => on_draw_start StringToNumber st c env data
  | DrawProgress data => on_draw_progress st c data
  | DrawEnd operationId => on_draw_end st c operationId
  | Erase data => on_erase st c env data
  | Shape data => on_shape st c env data
  | Text data => on_text st c env data
  | Image data => on_image st c env data
  | Ping ts => on_ping st c ts
  | ClearCanvas => on_clear_canvas st c env
  | CursorMove point => on_cursor_move st c env point
  | Undo => on_undo st c
  | SetName newName => on_set_name st c newName
  | Disconnect => on_disconnect st c
  end.

End Server.

(* ===================================================================== *)
(** ** src/client/main.ts: the mirror of [CanvasManager]                  *)
(* ===================================================================== *)

Module Client.
Import JS.
Import DrawingState (DrawingOperation, Point).

(** The fields of [CanvasManager] that hold operations. *)
Record CanvasManager : Type := mkCanvas {
  operations : list DrawingOperation;
  undoStack : list DrawingOperation;
  remoteOperations : Map DrawingOperation;
  currentOperation : option DrawingOperation
}.

(** The canvas is not part of the model; what is kept of it is the calls
    that a method makes to the context and to the drawing routines, in the
    order in which it makes them, with their arguments.  What a routine
    then does with its arguments is not described here. *)
Inductive DrawCall : Type :=
  | clearRect
  | drawRemotePath (path : list Point) (color : option string)
                   (lineWidth : option jsnum)
  | eraseRemotePath (path : list Point) (eraserRadius : option Q)
  | drawShape (operation : DrawingOperation)
  | drawText (operation : DrawingOperation)
  | drawImageFromData (operation : DrawingOperation).

(** The chain of [if ... else if ...] that [redrawCanvas] and [redo] have
    in common: the routine that is called for one operation, if any. *)
Definition draw_operation (operation : DrawingOperation) : list DrawCall :=
  match DrawingState.type operation with
  | DrawingState.draw =>
      match DrawingState.path operation with
      | Some (p :: ps) =>
          [drawRemotePath (p :: ps) (DrawingState.color operation)
                          (DrawingState.lineWidth operation)]
      | _ => []
      end
  | DrawingState.erase =>
      match DrawingState.path operation with
      | Some (p :: ps) =>
          [eraseRemotePath (p :: ps) (DrawingState.eraserRadius operation)]
      | _ => []
      end
  | DrawingState.rectangle | DrawingState.circle => [drawShape operation]
  | DrawingState.text_op => [drawText operation]
  | DrawingState.image => [drawImageFromData operation]
  | DrawingState.clear => []
  end.

(** [redrawCanvas]: [clearRect], then the chain for every operation of
    the list in order.  No field of the manager changes. *)
Definition redrawCanvas (cm : CanvasManager) : list DrawCall :=
  clearRect :: flat_map draw_operation (operations cm).

Definition copyPoint (p : Point) : Point :=
  {| DrawingState.x := DrawingState.x p; DrawingState.y := DrawingState.y p;
     DrawingState.pressure := DrawingState.pressure p |}.

(** [copyOperation]: a new object with the same fields, its path and its
    two points copied. *)
Definition copyOperation (op : DrawingOperation) : DrawingOperation :=
  {| DrawingState.id := DrawingState.id op;
     DrawingState.userId := DrawingState.userId op;
     DrawingState.type := DrawingState.type op;
     DrawingState.timestamp := DrawingState.timestamp op;
     DrawingState.path := DrawingState.path op;
     DrawingState.color := DrawingState.color op;
     DrawingState.lineWidth := DrawingState.lineWidth op;
     DrawingState.eraserRadius := DrawingState.eraserRadius op;
     DrawingState.startPoint := copyPoint <$> DrawingState.startPoint op;
     DrawingState.endPoint := copyPoint <$> DrawingState.endPoint op;
     DrawingState.text := DrawingState.text op;
     DrawingState.fontSize := DrawingState.fontSize op;
     DrawingState.imageData := DrawingState.imageData op;
     DrawingState.imageWidth := DrawingState.imageWidth op;
     DrawingState.imageHeight := DrawingState.imageHeight op |}.

(** One turn of the loop of [loadOperations]; an entry of the array that
    is [null] or [undefined] is [None]. *)
Definition load_one (cm : CanvasManager) (entry : option DrawingOperation)
  : CanvasManager :=
  match entry with
  | Some op =>
      if truthy_str (DrawingState.id op) then
        let operationCopy := copyOperation op in
        {| operations := operations cm ++ [operationCopy];
           undoStack := undoStack cm;
           remoteOperations :=
             Map_set (remoteOperations cm) (DrawingState.id op) operationCopy;
           currentOperation := currentOperation cm |}
      else cm
  | None => cm
  end.

(** [loadOperations(operations)]: the manager after the call, and the
    calls of the closing [redrawCanvas()]. *)
Definition loadOperations (cm : CanvasManager) (snapshot : list (option DrawingOperation))
  : CanvasManager * list DrawCall :=
  let reset :=
    {| operations := []; undoStack := []; remoteOperations := [];
       currentOperation := currentOperation cm |} in
  let loaded := foldl load_one reset snapshot in
  (loaded, redrawCanvas loaded).

(** [canUndo] and [canRedo] *)
Definition canUndo (cm : CanvasManager) : bool :=
  match operations cm with [] => false | _ => true end.

Definition canRedo (cm : CanvasManager) : bool :=
  match undoStack cm with [] => false | _ => true end.

(** [undo]: the operation at the tail of the list moves to the undo
    stack, its entry leaves the id-keyed map, and [redrawCanvas()] is
    called; [None] is [null].  The result is what the method returns, the
    manager after the call, and the drawing calls made. *)
Definition undo (cm : CanvasManager)
  : option DrawingOperation * CanvasManager * list DrawCall :=
  match last (operations cm) with
  | None => (None, cm, [])
  | Some operation =>
      let cm' :=
        {| operations := removelast (operations cm);
           undoStack := undoStack cm ++ [operation];
           remoteOperations :=
             Map_delete (remoteOperations cm) (DrawingState.id operation);
           currentOperation := currentOperation cm |} in
      (Some operation, cm', redrawCanvas cm')
  end.

(** [redo]: the operation at the tail of the undo stack goes back to the
    list, and the chain is run for it alone, without [clearRect]. *)
Definition redo (cm : CanvasManager)
  : option DrawingOperation * CanvasManager * list DrawCall :=
  match last (undoStack cm) with
  | None => (None, cm, [])
  | Some operation =>
      (Some operation,
       {| operations := operations cm ++ [operation];
          undoStack := removelast (undoStack cm);
          remoteOperations :=
            if Map_has (remoteOperations cm) (DrawingState.id operation)
            then remoteOperations cm
            else Map_set (remoteOperations cm) (DrawingState.id operation)
                   (copyOperation operation);
          currentOperation := currentOperation cm |},
       draw_operation operation)
  end.

(** [removeOperation(operationId)]: [findIndex], and when the id is
    found [splice(index, 1)] and [redrawCanvas()]. *)
Definition removeOperation (cm : CanvasManager) (operationId : string)
  : CanvasManager * list DrawCall :=
  match list_find (λ op, DrawingState.id op = operationId) (operations cm) with
  | Some (index, _) =>
      let cm' :=
        {| operations := delete index (operations cm);
           undoStack := undoStack cm;
           remoteOperations := remoteOperations cm;
           currentOperation := currentOperation cm |} in
      (cm', redrawCanvas cm')
  | None => (cm, [])
  end.

(** [addOperation(operation)]: a copy goes to the list and to the map;
    no drawing routine is called. *)
Definition addOperation (cm : CanvasManager) (operation : DrawingOperation)
  : CanvasManager :=
  let operationCopy := copyOperation operation in
  {| operations := operations cm ++ [operationCopy];
     undoStack := undoStack cm;
     remoteOperations :=
       Map_set (remoteOperations cm) (DrawingState.id operation) operationCopy;
     currentOperation := currentOperation cm |}.

End Client.

(* ===================================================================== *)
(** ** What a caller can observe of the manager                           *)
(* ===================================================================== *)

Module Observe.
Import JS DrawingState Server.

(** The state [getRoomState] hands out for a room: a room that was never
    referenced reads as the empty room. *)
Definition room_of (m : Manager) (roomId : string) : RoomState :=
  default empty_room (m !! roomId).

(** The operation log of a room. *)
Definition log_of (m : Manager) (roomId : string) : list DrawingOperation :=
  operations (room_of m roomId).

(** A run of [addOperation] calls, oldest first. *)
Definition append_all (m : Manager) (calls : list (string * DrawingOperation)) : Manager :=
  foldl (λ acc call, addOperation acc call.1 call.2) m calls.

(** The characters a room id may be made of, spelled out. *)
Definition room_alphabet : string :=
  "ABCDEFGHIJKLMNOPQRSTUVWXYZabcdefghijklmnopqrstuvwxyz0123456789_-".

Definition in_alphabet (ch : ascii) : bool :=
  existsb (Ascii.eqb ch) (list_ascii_of_string room_alphabet).

(** The connection's socket is in the room its closure names. *)
Definition in_current_room (c : Conn) : Prop := currentRoom c ∈ socketRooms c.

(** The ids of a list of operations, in order. *)
Definition ids (ops : list DrawingOperation) : list string := id <$> ops.

(** The entries of a snapshot that [loadOperations] keeps. *)
Definition kept (snapshot : list (option DrawingOperation)) : list DrawingOperation :=
  omap (λ entry, match entry with
                 | Some op => if truthy_str (id op) then Some op else None
                 | None => None
                 end) snapshot.

(** Filling an id-keyed map from a list of operations, as the loop of
    [loadOperations] does with [remoteOperations]. *)
Definition fill (m : Map DrawingOperation) (ops : list DrawingOperation)
  : Map DrawingOperation :=
  foldl (λ acc op, Map_set acc (id op) op) m ops.

(** No log is longer than the cap. *)
Definition logs_bounded (m : Manager) : Prop :=
  ∀ r, length (log_of m r) ≤ MAX_OPERATIONS.

(** What holds of a connection for as long as it lives: the user id of
    its closure is the id the transport gave the socket, which is never
    the empty string, and the socket is in the room the closure names. *)
Definition live_conn (c : Conn) : Prop :=
  conn_userId c ≠ "" ∧ in_current_room c.

(** No room of the first manager is missing from the second. *)
Definition keeps_rooms (m m' : Manager) : Prop :=
  ∀ r, is_Some (m !! r) → is_Some (m' !! r).

(** The room the closure names has a state in the manager. *)
Definition room_present (st : State) (c : Conn) : Prop :=
  is_Some (drawingState st !! currentRoom c).

(** The messages of one connection, handled in order, each with the
    clock and the id generator it sees. *)
Definition run (StringToNumber : string → jsnum) (st : State) (c : Conn)
  (msgs : list (Env * Message)) : State * Conn :=
  foldl (λ sc em, (handle StringToNumber sc.1 sc.2 em.1 em.2).1) (st, c) msgs.

(** The users of a room, in insertion order. *)
Definition users_of (m : Manager) (roomId : string) : Map UserInfo :=
  users (room_of m roomId).

(** A [Map] holds a key once; the list that stands for it has no
    repeated key. *)
Definition Map_wf {V} (m : Map V) : Prop := NoDup m.*1.

Definition users_wf (m : Manager) : Prop := ∀ r, Map_wf (users_of m r).

(** A user the sweep leaves in place at time [now]. *)
Definition active (now : Z) (u : UserInfo) : Prop :=
  (now - lastSeen u ≤ USER_TIMEOUT)%Z.

#[global] Instance active_dec now u : Decision (active now u).
Proof. unfold active. apply _. Defined.

(** Users taking a color one after the other. *)
Definition assign_all (rm : Rooms.RoomManager) (uids : list string) : Rooms.RoomManager :=
  foldl (λ acc uid, (Rooms.assignUserColor acc uid).2) rm uids.

(** A room id the [join-room] handler lets through. *)
Definition room_id_ok (v : jsval) : Prop :=
  ∃ s, v = JStr s ∧ s ≠ "" ∧ String.length s ≤ 50
       ∧ Forall (λ ch, in_alphabet ch = true) (list_ascii_of_string s).

(** Every operation of every log has an id that is not empty. *)
Definition ids_nonempty (m : Manager) : Prop :=
  ∀ r op, op ∈ log_of m r → id op ≠ "".

(** What holds of the drawing state whatever the clients send. *)
Definition server_ok (st : State) : Prop :=
  logs_bounded (drawingState st) ∧ users_wf (drawingState st)
  ∧ ids_nonempty (drawingState st).

(** The server before the first connection. *)
Definition new_state : State :=
  {| drawingState := new_manager; roomManager := Rooms.new_room_manager |}.

(** The [draw-progress] messages of one stroke, one per point. *)
Definition progress_of (operationId : string) (pts : list (Q * Q))
  : list (option DrawProgressData) :=
  (λ p, Some {| dp_operationId := Some operationId;
                dp_point := Some {| raw_x := JNum p.1; raw_y := JNum p.2 |} |}) <$> pts.

(** Handling them in order on one connection. *)
Definition progress_all (st : State) (c : Conn) (msgs : list (option DrawProgressData))
  : State :=
  foldl (λ acc d, (on_draw_progress acc c d).1.1) st msgs.

(** The point the two stroke handlers store for the coordinates received. *)
Definition clamped (p : Q * Q) : Point :=
  {| x := clamp0 p.1; y := clamp0 p.2; pressure := None |}.

(** *** Sample data *)

Definition stroke (oid uid : string) : DrawingOperation :=
  {| id := oid; userId := uid; type := draw; timestamp := 0;
     path := Some [{| x := 1; y := 2; pressure := None |}];
     color := Some "#000000"; lineWidth := Some (Fin 5); eraserRadius := None;
     startPoint := None; endPoint := None; text := None; fontSize := None;
     imageData := None; imageWidth := None; imageHeight := None |}.

Definition opA : DrawingOperation := stroke "A" "u1".
Definition opB : DrawingOperation := stroke "B" "u2".
Definition opC : DrawingOperation := stroke "C" "u1".

(** The record that the client which draws a stroke keeps of it:
    [startDrawing] gives it the id, an empty [userId] and the time of the
    client's own clock. *)
Definition local_stroke (oid : string) : DrawingOperation :=
  {| id := oid; userId := ""; type := draw; timestamp := 7;
     path := Some [{| x := 1; y := 2; pressure := None |}];
     color := Some "#000000"; lineWidth := Some (Fin 5); eraserRadius := None;
     startPoint := None; endPoint := None; text := None; fontSize := None;
     imageData := None; imageWidth := None; imageHeight := None |}.

Definition room_with (ops : list DrawingOperation) : Manager :=
  {[ "room" := {| operations := ops; users := [] |} ]}.

Definition state_with (ops : list DrawingOperation) : State :=
  {| drawingState := room_with ops; roomManager := Rooms.new_room_manager |}.

Definition conn_of (uid : string) : Conn :=
  {| currentRoom := "room"; conn_userId := uid; userName := "User " +:+ uid;
     userColor := "#FF6B6B"; socketRooms := {[uid]} ∪ {["room"]} |}.

Definition env0 : Env := {| Date_now := λ _, 1700000000000%Z; uuidv4 := "uuid-0" |}.

Definition no_coercion : string → jsnum := λ _, NaN.

Definition sample_user (uid : string) (seen : Z) : UserInfo :=
  {| user_id := uid; user_name := "User " +:+ uid; user_color := "#FF6B6B";
     cursorPosition := None; lastSeen := seen |}.

(** A room with two operations and two users, last seen at 1000 and at
    50000. *)
Definition crowd : Manager :=
  {[ "room" := {| operations := [opA; opB];
                  users := [("u1", sample_user "u1" 1000);
                            ("u2", sample_user "u2" 50000)] |} ]}.

Definition crowd_state : State :=
  {| drawingState := crowd; roomManager := Rooms.new_room_manager |}.

Definition eleven : list string :=
  ["a"; "b"; "c"; "d"; "e"; "f"; "g"; "h"; "i"; "j"; "k"].

(** A stroke of [u1] whose path is full. *)
Definition full_stroke : DrawingOperation :=
  set_path opA (replicate 10000 {| x := 1; y := 2; pressure := None |}).

(** A client whose list is [ops], as [loadOperations] leaves it. *)
Definition mirror_of (ops : list DrawingOperation) : Client.CanvasManager :=
  {| Client.operations := ops; Client.undoStack := [];
     Client.remoteOperations := fill [] ops; Client.currentOperation := None |}.

End Observe.

(* ===================================================================== *)
(** ** The operation log                                                  *)
(* ===================================================================== *)

Section OperationLog.
Import JS DrawingState Observe.

Implicit Types (m : Manager) (op : DrawingOperation) (ops : list DrawingOperation).

Lemma getRoomState_fst m r : (getRoomState m r).1 = room_of m r.
Proof. unfold getRoomState, room_of. by destruct (m !! r). Qed.

Lemma getRoomState_snd_lookup m r r' :
  room_of (getRoomState m r).2 r' = room_of m r'.
Proof.
  unfold getRoomState, room_of.
  destruct (m !! r) eqn:E; simpl; [done|].
  destruct (decide (r = r')) as [->|Hne].
  - by rewrite lookup_insert_eq, E.
  - by rewrite lookup_insert_ne.
Qed.

Lemma getRoomState_present m r s : m !! r = Some s → getRoomState m r = (s, m).
Proof. unfold getRoomState. by intros ->. Qed.

Lemma room_of_insert m r s : room_of (<[r := s]> m) r = s.
Proof. unfold room_of. by rewrite lookup_insert_eq. Qed.

Lemma room_of_insert_ne m r r' s : r ≠ r' → room_of (<[r := s]> m) r' = room_of m r'.
Proof. intros. unfold room_of. by rewrite lookup_insert_ne. Qed.

Lemma log_of_addOperation m r op :
  log_of (addOperation m r op) r =
    if decide (MAX_OPERATIONS < length (log_of m r ++ [op]))
    then drop 1 (log_of m r ++ [op]) else log_of m r ++ [op].
Proof.
  unfold log_of, addOperation.
  destruct (getRoomState m r) as [state m1] eqn:E.
  rewrite room_of_insert. simpl.
  replace state with (room_of m r); [done|].
  by rewrite <- getRoomState_fst, E.
Qed.

Lemma room_of_addOperation_ne m r r' op :
  r ≠ r' → room_of (addOperation m r op) r' = room_of m r'.
Proof.
  intros Hne. unfold addOperation.
  destruct (getRoomState m r) as [state m1] eqn:E.
  rewrite room_of_insert_ne by done.
  replace m1 with (getRoomState m r).2 by (by rewrite E).
  apply getRoomState_snd_lookup.
Qed.

Lemma users_addOperation m r r' op :
  users (room_of (addOperation m r op) r') = users (room_of m r').
Proof.
  destruct (decide (r = r')) as [<-|Hne]; [|by rewrite room_of_addOperation_ne].
  unfold addOperation.
  destruct (getRoomState m r) as [state m1] eqn:E.
  rewrite room_of_insert. simpl.
  by rewrite <- getRoomState_fst, E.
Qed.

Lemma addOperation_length_le m r op :
  length (log_of m r) ≤ MAX_OPERATIONS →
  length (log_of (addOperation m r op) r) ≤ MAX_OPERATIONS.
Proof.
  intros Hle. rewrite log_of_addOperation.
  case_decide as Hgt.
  - rewrite length_drop, length_app. simpl. lia.
  - lia.
Qed.

Lemma append_all_bounded calls : ∀ m,
  (∀ r, length (log_of m r) ≤ MAX_OPERATIONS) →
  ∀ r, length (log_of (append_all m calls) r) ≤ MAX_OPERATIONS.
Proof.
  induction calls as [|[r0 op] calls IH]; intros m Hm r; [apply Hm|].
  simpl. apply IH. intros r'.
  destruct (decide (r0 = r')) as [<-|Hne].
  - by apply addOperation_length_le.
  - unfold log_of. rewrite room_of_addOperation_ne by done. apply Hm.
Qed.

(** C2. Whatever operations are appended to whatever rooms of a new
    manager, no log is ever longer than 500; appending to a log that
    holds 500 operations drops the one at index 0, whoever wrote it, and
    puts the new one at the tail; below 500 nothing is dropped. *)
Theorem addOperation_caps_log_fifo :
  (∀ (calls : list (string * DrawingOperation)) (r : string),
      length (log_of (append_all new_manager calls) r) ≤ 500)
  ∧ (∀ m r op,
      length (log_of m r) = 500 →
      log_of (addOperation m r op) r = drop 1 (log_of m r) ++ [op]
      ∧ length (log_of (addOperation m r op) r) = 500)
  ∧ (∀ m r op,
      length (log_of m r) < 500 →
      log_of (addOperation m r op) r = log_of m r ++ [op]).
Proof.
  split; [|split].
  - intros calls r. apply append_all_bounded. intros r'.
    unfold log_of, room_of, new_manager. rewrite lookup_empty. simpl. lia.
  - intros m r op Hlen. rewrite log_of_addOperation.
    rewrite decide_True by (rewrite length_app; unfold MAX_OPERATIONS; simpl; lia).
    destruct (log_of m r) as [|o l] eqn:E; [simpl in Hlen; lia|].
    simpl. rewrite !drop_0. split; [done|].
    rewrite length_app. simpl in *. lia.
  - intros m r op Hlen. rewrite log_of_addOperation.
    by rewrite decide_False by (rewrite length_app; unfold MAX_OPERATIONS; simpl; lia).
Qed.

End OperationLog.

Section Undo.
Import JS DrawingState Observe.

Implicit Types (m : Manager) (op : DrawingOperation) (ops : list DrawingOperation).

Lemma truthy_str_true (s : string) : s ≠ "" → truthy_str s = true.
Proof.
  intros Hs. unfold truthy_str. destruct (String.eqb_spec s ""); [done|reflexivity].
Qed.

Lemma scan_back_found pre op post u :
  userId op = u →
  Forall (λ o, userId o ≠ u) post →
  ∀ k, k ≤ length post →
    scan_back (pre ++ op :: post) u (length pre + 1 + k) = Some (length pre).
Proof.
  intros Hop Hpost k. induction k as [|k IH]; intros Hk.
  - replace (length pre + 1 + 0) with (S (length pre)) by lia. simpl.
    rewrite list_lookup_middle by done.
    rewrite Hop. by rewrite String.eqb_refl.
  - replace (length pre + 1 + S k) with (S (length pre + 1 + k)) by lia. simpl.
    replace (length pre + 1 + k) with (length pre + S k) by lia.
    rewrite lookup_app_r by lia.
    replace (length pre + S k - length pre) with (S k) by lia. simpl.
    destruct (post !! k) as [o|] eqn:Ek.
    + assert (userId o ≠ u) as Hne.
      { eapply (proj1 (Forall_forall _ _) Hpost). eapply list_elem_of_lookup_2, Ek. }
      destruct (String.eqb_spec (userId o) u); [done|].
      replace (length pre + S k) with (length pre + 1 + k) by lia.
      apply IH. lia.
    + apply lookup_ge_None in Ek. lia.
Qed.

Lemma scan_back_none ops u :
  Forall (λ o, userId o ≠ u) ops →
  ∀ n, scan_back ops u n = None.
Proof.
  intros Hall n. induction n as [|n IH]; [done|]. simpl.
  destruct (ops !! n) as [o|] eqn:En; [|done].
  assert (userId o ≠ u) as Hne.
  { eapply (proj1 (Forall_forall _ _) Hall). eapply list_elem_of_lookup_2, En. }
  by destruct (String.eqb_spec (userId o) u).
Qed.

Lemma log_nonempty_room m r o ops :
  log_of m r = o :: ops → m !! r = Some (room_of m r).
Proof.
  unfold log_of, room_of. destruct (m !! r); [done|]. simpl. discriminate.
Qed.

(** The scoped branch of [undoOperation], on a log split around the
    operation it picks. *)
Lemma undoOperation_scoped m r u pre op post :
  truthy_str u = true →
  log_of m r = pre ++ op :: post →
  userId op = u →
  Forall (λ o, userId o ≠ u) post →
  undoOperation m r (Some u)
    = (Some op, <[r := set_operations (room_of m r) (pre ++ post)]> m).
Proof.
  intros Hu Hlog Hop Hpost.
  assert (m !! r = Some (room_of m r)) as Hin.
  { destruct pre; eapply log_nonempty_room; exact Hlog. }
  unfold undoOperation. rewrite (getRoomState_present _ _ _ Hin).
  fold (log_of m r). rewrite Hlog. simpl. rewrite Hu.
  destruct (length (pre ++ op :: post) =? 0) eqn:El.
  { apply Nat.eqb_eq in El. rewrite length_app in El. simpl in El. lia. }
  replace (length (pre ++ op :: post)) with (length pre + 1 + length post)
    by (rewrite length_app; simpl; lia).
  rewrite (scan_back_found pre op post u Hop Hpost) by lia.
  rewrite list_lookup_middle by done.
  by rewrite delete_middle.
Qed.

(** The unscoped branch: taken when no user id is given, and also when
    the one given is the empty string, which [if (userId)] reads as none. *)
Lemma undoOperation_unscoped m r uid pre op :
  truthy_ostr uid = false →
  log_of m r = pre ++ [op] →
  undoOperation m r uid
    = (Some op, <[r := set_operations (room_of m r) pre]> m).
Proof.
  intros Hu Hlog.
  assert (m !! r = Some (room_of m r)) as Hin.
  { destruct pre; eapply log_nonempty_room; exact Hlog. }
  unfold undoOperation. rewrite (getRoomState_present _ _ _ Hin).
  fold (log_of m r). rewrite Hlog, Hu.
  destruct (length (pre ++ [op]) =? 0) eqn:El.
  { apply Nat.eqb_eq in El. rewrite length_app in El. simpl in El. lia. }
  replace (length (pre ++ [op]) - 1) with (length pre)
    by (rewrite length_app; simpl; lia).
  rewrite list_lookup_middle by done.
  rewrite delete_middle. by rewrite app_nil_r.
Qed.

(** Nothing to undo: [null], and no room reads differently afterwards. *)
Lemma undoOperation_nothing m r uid :
  log_of m r = []
  ∨ (truthy_ostr uid = true ∧ Forall (λ o, userId o ≠ default "" uid) (log_of m r)) →
  undoOperation m r uid = (None, (getRoomState m r).2).
Proof.
  intros H. unfold undoOperation.
  destruct (getRoomState m r) as [state m1] eqn:E. simpl.
  assert (operations state = log_of m r) as ->.
  { unfold log_of. by rewrite <- getRoomState_fst, E. }
  destruct (length (log_of m r) =? 0) eqn:El; [done|].
  destruct H as [Hnil|[Hu Hall]].
  { rewrite Hnil in El. discriminate. }
  rewrite Hu. by rewrite (scan_back_none _ _ Hall).
Qed.

Lemma filter_others_split u pre op post :
  userId op = u →
  filter (λ o, userId o ≠ u) (pre ++ op :: post)
    = filter (λ o, userId o ≠ u) (pre ++ post).
Proof.
  intros Hop. rewrite !filter_app, filter_cons.
  by rewrite decide_False by (intros Hne; by apply Hne).
Qed.

(** C1. The user id that [undoOperation] is given is the id of a socket:
    its one caller, the [undo] handler, passes [socket.id], which is
    never the empty string.  On a log in which [op] is that user's
    operation closest to the tail, [undoOperation] returns [op] and
    removes it and nothing else: the log keeps every other operation
    where it stood, so the operations of the other users are the same,
    in the same order. *)
Theorem undoOperation_removes_latest_own m r u pre op post :
  u ≠ "" →
  log_of m r = pre ++ op :: post →
  userId op = u →
  Forall (λ o, userId o ≠ u) post →
  let res := undoOperation m r (Some u) in
  res.1 = Some op
  ∧ res.2 = <[r := set_operations (room_of m r) (pre ++ post)]> m
  ∧ log_of res.2 r = pre ++ post
  ∧ users (room_of res.2 r) = users (room_of m r)
  ∧ filter (λ o, userId o ≠ u) (log_of res.2 r)
      = filter (λ o, userId o ≠ u) (log_of m r).
Proof.
  intros Hu Hlog Hop Hpost res. subst res.
  rewrite (undoOperation_scoped m r u pre op post) by (by try apply truthy_str_true).
  simpl. unfold log_of at 1 2. rewrite room_of_insert. simpl.
  repeat split; try done.
  rewrite Hlog. symmetry. by apply filter_others_split.
Qed.

(** C9. With the user id left out, [undoOperation] on a non-empty log
    returns the operation at the tail, whoever wrote it, and the log of
    the room is then what stood before that operation, with the users of
    the room and every other room as they were; on an empty log it
    returns [null], the log stays empty and no room reads differently. *)
Theorem undoOperation_without_userId m r :
  (∀ pre op,
      log_of m r = pre ++ [op] →
      let res := undoOperation m r None in
      res = (Some op, <[r := set_operations (room_of m r) pre]> m)
      ∧ res.1 = Some op
      ∧ log_of res.2 r = pre
      ∧ users (room_of res.2 r) = users (room_of m r)
      ∧ ∀ r', r' ≠ r → room_of res.2 r' = room_of m r')
  ∧ (log_of m r = [] →
      (undoOperation m r None).1 = None
      ∧ log_of (undoOperation m r None).2 r = []
      ∧ ∀ r', room_of (undoOperation m r None).2 r' = room_of m r').
Proof.
  split.
  - intros pre op Hlog res. subst res.
    rewrite (undoOperation_unscoped m r None pre op eq_refl Hlog). cbn [fst snd].
    split; [done|]. split; [done|].
    split; [unfold log_of; by rewrite room_of_insert|].
    split; [by rewrite room_of_insert|].
    intros r' Hne. by apply room_of_insert_ne.
  - intros Hnil. rewrite undoOperation_nothing by (by left). simpl.
    split; [done|].
    assert (∀ r', room_of (getRoomState m r).2 r' = room_of m r') as Hsame
      by (intros r'; apply getRoomState_snd_lookup).
    split; [|done]. unfold log_of. by rewrite Hsame.
Qed.

End Undo.

(* ===================================================================== *)
(** ** The relay                                                          *)
(* ===================================================================== *)

Section Relay.
Import JS DrawingState Rooms Server Observe.

Implicit Types (st : State) (c : Conn) (env : Env) (op : DrawingOperation).

Lemma log_of_addOperation_last m r op :
  last (log_of (addOperation m r op) r) = Some op.
Proof.
  rewrite log_of_addOperation. case_decide as Hgt.
  - destruct (log_of m r) as [|o l].
    + simpl in Hgt. unfold MAX_OPERATIONS in Hgt. lia.
    + simpl. rewrite drop_0. apply last_snoc.
  - apply last_snoc.
Qed.

Lemma Qmax2_lower (a b : Q) : (a <= Qmax2 a b)%Q.
Proof.
  unfold Qmax2. destruct (Qle_bool b a) eqn:E.
  - apply Qle_refl.
  - apply Qnot_lt_le. intros Hlt. apply Qlt_le_weak, Qle_bool_iff in Hlt. congruence.
Qed.

Lemma clamp0_nonneg (q : Q) : (0 <= clamp0 q)%Q.
Proof. apply Qmax2_lower. Qed.

Lemma Qmax2_Qmax (a b : Q) : (Qmax2 a b == Qmax a b)%Q.
Proof.
  unfold Qmax2. destruct (Qle_bool b a) eqn:E.
  - apply Qle_bool_iff in E. symmetry. by apply Q.max_l.
  - assert (a <= b)%Q as Hab.
    { apply Qnot_lt_le. intros Hlt. apply Qlt_le_weak, Qle_bool_iff in Hlt. congruence. }
    symmetry. by apply Q.max_r.
Qed.

Lemma Qmin2_Qmin (a b : Q) : (Qmin2 a b == Qmin a b)%Q.
Proof.
  unfold Qmin2. destruct (Qle_bool a b) eqn:E.
  - apply Qle_bool_iff in E. symmetry. by apply Q.min_l.
  - assert (b <= a)%Q as Hab.
    { apply Qnot_lt_le. intros Hlt. apply Qlt_le_weak, Qle_bool_iff in Hlt. congruence. }
    symmetry. by apply Q.min_r.
Qed.

Lemma with_drawingState_same st : with_drawingState st (drawingState st) = st.
Proof. by destruct st. Qed.

Lemma addOperation_lookup m r op :
  addOperation m r op !! r = Some (room_of (addOperation m r op) r).
Proof.
  unfold room_of, addOperation. destruct (getRoomState m r) as [state m1].
  by rewrite lookup_insert_eq.
Qed.

(** *** draw-start *)

Lemma clamp_lineWidth_falsy S2N (w : jsval) :
  truthy w = false → clamp_lineWidth S2N w = Fin 5.
Proof. intros Hw. unfold clamp_lineWidth, or_else. by rewrite Hw. Qed.

Lemma clamp_lineWidth_number S2N (w : Q) :
  ¬ (w == 0)%Q → clamp_lineWidth S2N (JNum w) = Fin (Qmax2 1 (Qmin2 100 w)).
Proof.
  intros Hw. unfold clamp_lineWidth, or_else. simpl.
  destruct (Qeq_bool w 0) eqn:E; [|done].
  apply Qeq_bool_iff in E. contradiction.
Qed.

Lemma Qmax2_Qmin2_bounds (w : Q) :
  (1 <= Qmax2 1 (Qmin2 100 w) <= 100)%Q.
Proof.
  split; [apply Qmax2_lower|].
  rewrite Qmax2_Qmax, Qmin2_Qmin.
  apply Q.max_lub; [done|apply Q.le_min_l].
Qed.

(** The point a [draw-start] stores and relays has no negative coordinate. *)
Lemma draw_start_point_clamped S2N c env d px py :
  ∃ p, path (draw_start_operation S2N c env d px py) = Some [p]
       ∧ (0 <= x p)%Q ∧ (0 <= y p)%Q.
Proof. eexists. split; [reflexivity|]. split; apply clamp0_nonneg. Qed.

(** C10. A [draw-start] with a well-formed point leaves one new
    operation at the tail of the room's log in the state it returns, and
    relays that same operation to the other members; its [lineWidth] is
    5 when the field received is falsy (0, absent, null, false or the
    empty string), and max(1, min(100, w)) when it is any other number
    [w]. *)
Theorem draw_start_lineWidth_default_then_clamp S2N st c env d px py :
  ds_point d = Some {| raw_x := JNum px; raw_y := JNum py |} →
  let res := on_draw_start S2N st c env (Some d) in
  ∃ op,
    res
      = (with_drawingState st (addOperation (drawingState st) (currentRoom c) op), c,
         [ {| target := ToOthersIn (currentRoom c); event := "draw-start";
              payload := POperation op |} ])
    ∧ last (log_of (drawingState res.1.1) (currentRoom c)) = Some op
    ∧ res.2 = [ {| target := ToOthersIn (currentRoom c); event := "draw-start";
                   payload := POperation op |} ]
    ∧ last (log_of (addOperation (drawingState st) (currentRoom c) op) (currentRoom c))
        = Some op
    ∧ (truthy (ds_lineWidth d) = false → lineWidth op = Some (Fin 5))
    ∧ (∀ w, ds_lineWidth d = JNum w → ¬ (w == 0)%Q →
         ∃ v, lineWidth op = Some (Fin v)
              ∧ (v == Qmax 1 (Qmin 100 w))%Q ∧ (1 <= v <= 100)%Q).
Proof.
  intros Hpt res. subst res. exists (draw_start_operation S2N c env d px py).
  assert (on_draw_start S2N st c env (Some d)
            = (with_drawingState st
                 (addOperation (drawingState st) (currentRoom c)
                    (draw_start_operation S2N c env d px py)), c,
               [ {| target := ToOthersIn (currentRoom c); event := "draw-start";
                    payload := POperation (draw_start_operation S2N c env d px py) |} ]))
    as Hrun by (unfold on_draw_start; by rewrite Hpt).
  rewrite Hrun. cbn [fst snd drawingState with_drawingState].
  split; [done|].
  split; [apply log_of_addOperation_last|].
  split; [done|].
  split; [apply log_of_addOperation_last|].
  split.
  - intros Hw. simpl. by rewrite clamp_lineWidth_falsy.
  - intros w Hw Hnz. exists (Qmax2 1 (Qmin2 100 w)). simpl.
    rewrite Hw, clamp_lineWidth_number by done.
    split; [done|]. split; [|apply Qmax2_Qmin2_bounds].
    rewrite Qmax2_Qmax. apply Q.max_compat; [reflexivity|apply Qmin2_Qmin].
Qed.

(** *** draw-progress *)

(** C4. A [draw-progress] whose operation id is not found in the room's
    log, or is found on an operation of another user, changes nothing:
    every room reads as before (the manager itself is the same whenever
    the room was there), the connection is the same, and nothing is
    emitted, neither to the room nor to the sender. *)
Theorem draw_progress_foreign_or_unknown_dropped st c operationId pt :
  (∀ i op,
      find_operation (log_of (drawingState st) (currentRoom c)) operationId = Some (i, op) →
      userId op ≠ conn_userId c) →
  let res :=
    on_draw_progress st c
      (Some {| dp_operationId := Some operationId; dp_point := pt |}) in
  res.2 = []
  ∧ res.1.2 = c
  ∧ roomManager res.1.1 = roomManager st
  ∧ (∀ r, room_of (drawingState res.1.1) r = room_of (drawingState st) r)
  ∧ (is_Some (drawingState st !! currentRoom c) → res.1.1 = st).
Proof.
  intros Hforeign res. subst res. unfold on_draw_progress. simpl.
  assert (∀ r, room_of (getRoomState (drawingState st) (currentRoom c)).2 r
               = room_of (drawingState st) r) as Hview
    by (intros; apply getRoomState_snd_lookup).
  assert (is_Some (drawingState st !! currentRoom c) →
          with_drawingState st (getRoomState (drawingState st) (currentRoom c)).2 = st)
    as Hsame.
  { intros [s Hs]. rewrite (getRoomState_present _ _ _ Hs). simpl.
    apply with_drawingState_same. }
  destruct (truthy_str operationId); simpl; [|by repeat split].
  destruct pt as [[[| | |px|] [| | |py|]]|]; simpl; try by repeat split.
  pose proof (getRoomState_fst (drawingState st) (currentRoom c)) as Hfst.
  destruct (getRoomState (drawingState st) (currentRoom c)) as [state m1] eqn:E.
  simpl in Hfst, Hview, Hsame. subst state.
  fold (log_of (drawingState st) (currentRoom c)).
  destruct (find_operation (log_of (drawingState st) (currentRoom c)) operationId)
    as [[i op]|] eqn:Ef; [|by repeat split].
  specialize (Hforeign i op eq_refl).
  destruct (String.eqb_spec (userId op) (conn_userId c)) as [Heq|Hne]; [done|].
  by repeat split.
Qed.

(** *** join-room *)

(** The class of the sanitizing expression is the alphabet, letter by letter. *)
Lemma room_char_alphabet (ch : ascii) : room_char ch = in_alphabet ch.
Proof.
  destruct ch as [[] [] [] [] [] [] [] []]; vm_compute; reflexivity.
Qed.

Lemma sanitize_length (s : string) : String.length (sanitize s) ≤ String.length s.
Proof.
  induction s as [|ch s IH]; simpl; [done|].
  destruct (room_char ch); simpl; lia.
Qed.

Lemma sanitize_drops (s : string) (ch : ascii) :
  In ch (list_ascii_of_string s) → room_char ch = false →
  String.length (sanitize s) < String.length s.
Proof.
  induction s as [|ch' s IH]; simpl; [done|].
  intros [->|Hin] Hbad.
  - rewrite Hbad. pose proof (sanitize_length s). lia.
  - specialize (IH Hin Hbad). destruct (room_char ch'); simpl; [lia|].
    pose proof (sanitize_length s). lia.
Qed.

Lemma sanitize_changes (s : string) (ch : ascii) :
  In ch (list_ascii_of_string s) → room_char ch = false →
  String.eqb (sanitize s) s = false.
Proof.
  intros Hin Hbad. destruct (String.eqb_spec (sanitize s) s) as [Heq|]; [|done].
  pose proof (sanitize_drops s ch Hin Hbad) as Hlt. rewrite Heq in Hlt. lia.
Qed.

(** C5. A [join-room] whose room id is absent, is longer than 50
    characters, or has a character outside [A-Za-z0-9_-] is answered by
    one error event, sent to the sender alone; the two managers and the
    connection (its current room, the rooms its socket is in) are as
    they were. *)
Theorem join_room_invalid_id_rejected st c env roomId newName :
  roomId = JUndefined
  ∨ (∃ s, roomId = JStr s ∧ 50 < String.length s)
  ∨ (∃ s ch, roomId = JStr s ∧ In ch (list_ascii_of_string s) ∧ in_alphabet ch = false) →
  ∃ msg,
    on_join_room st c env (JoinObject roomId newName)
      = (st, c, [ {| target := ToSender; event := "error"; payload := PError msg |} ]).
Proof.
  intros [->|[(s & -> & Hlen)|(s & ch & -> & Hin & Hbad)]]; simpl.
  - by eexists.
  - destruct (negb (negb (String.eqb s ""))); simpl; [by eexists|].
    destruct (Nat.ltb_spec 50 (String.length s)); [by eexists|lia].
  - destruct (negb (negb (String.eqb s "")) || (50 <? String.length s)); [by eexists|].
    rewrite <- room_char_alphabet in Hbad.
    rewrite (sanitize_changes s ch Hin Hbad). by eexists.
Qed.

(** Whenever a [join-room] answers with an error, nothing has changed. *)
Lemma join_room_error_means_unchanged st c env data e :
  In e (on_join_room st c env data).2 → event e = "error" →
  (on_join_room st c env data).1 = (st, c).
Proof.
  destruct data as [v|[| | | |s] nm]; simpl; try done.
  destruct (negb (negb (String.eqb s "")) || (50 <? String.length s)); [done|].
  destruct (negb (String.eqb (sanitize s) s)); [done|].
  destruct (assignUserColor _ _) as [col rm2].
  destruct (getStateSnapshot _ _) as [[ops us] m2]. simpl.
  intros [<-|[<-|[<-|[]]]]; simpl; discriminate.
Qed.

(** The socket of a connection is in the room its closure names, from
    the connection on and across every [join-room]. *)
Lemma connection_in_current_room st sid env :
  in_current_room (on_connection st sid env).1.2.
Proof.
  unfold on_connection, in_current_room.
  destruct (assignUserColor _ _) as [col rm2].
  destruct (getStateSnapshot _ _) as [[ops us] m1]. simpl. set_solver.
Qed.

Lemma join_room_in_current_room st c env data :
  in_current_room c → in_current_room (on_join_room st c env data).1.2.
Proof.
  intros Hc. unfold in_current_room.
  destruct data as [v|[| | | |s] nm]; simpl; try done.
  destruct (negb (negb (String.eqb s "")) || (50 <? String.length s)); [done|].
  destruct (negb (String.eqb (sanitize s) s)); [done|].
  destruct (assignUserColor _ _) as [col rm2].
  destruct (getStateSnapshot _ _) as [[ops us] m2]. simpl. set_solver.
Qed.

(** *** clear-canvas *)

Lemma clear_canvas_rooms st c env :
  room_of (drawingState (on_clear_canvas st c env).1.1) (currentRoom c)
    = {| operations := [bare_op (uuidv4 env) (conn_userId c) clear (Date_now env 0)];
         users := users (room_of (drawingState st) (currentRoom c)) |}
  ∧ (∀ r, r ≠ currentRoom c →
        room_of (drawingState (on_clear_canvas st c env).1.1) r
          = room_of (drawingState st) r).
Proof.
  unfold on_clear_canvas.
  set (marker := bare_op (uuidv4 env) (conn_userId c) clear (Date_now env 0)).
  set (m1 := addOperation (drawingState st) (currentRoom c) marker).
  rewrite (getRoomState_present m1 (currentRoom c) _ (addOperation_lookup _ _ _)).
  simpl. split.
  - rewrite room_of_insert. unfold set_operations. f_equal.
    subst m1. apply users_addOperation.
  - intros r Hr. rewrite room_of_insert_ne by done.
    subst m1. by apply room_of_addOperation_ne.
Qed.

(** C6. After a [clear-canvas] the log of the room is exactly the clear
    marker, an operation of type [clear] carrying the sender's user id
    and the server's clock, whatever the log held; the users of the room
    and every other room are as before; and the marker is emitted once,
    to everyone in the room, which reaches the sender's own socket. *)
Theorem clear_canvas_collapses_log st c env :
  let res := on_clear_canvas st c env in
  let marker := bare_op (uuidv4 env) (conn_userId c) clear (Date_now env 0) in
  log_of (drawingState res.1.1) (currentRoom c) = [marker]
  ∧ type marker = clear ∧ userId marker = conn_userId c
  ∧ timestamp marker = Date_now env 0
  ∧ users (room_of (drawingState res.1.1) (currentRoom c))
      = users (room_of (drawingState st) (currentRoom c))
  ∧ (∀ r, r ≠ currentRoom c →
        room_of (drawingState res.1.1) r = room_of (drawingState st) r)
  ∧ res.1.2 = c
  ∧ res.2 = [ {| target := ToEveryoneIn (currentRoom c); event := "clear-canvas";
                payload := POperation marker |} ]
  ∧ (in_current_room c → Forall (λ e, reaches_sender e c = true) res.2).
Proof.
  intros res marker. subst res.
  destruct (clear_canvas_rooms st c env) as [Hroom Hother].
  unfold log_of. rewrite Hroom. simpl.
  repeat split; try done.
  - unfold on_clear_canvas. by destruct (getRoomState _ _).
  - unfold on_clear_canvas. by destruct (getRoomState _ _).
  - intros Hin. unfold on_clear_canvas. destruct (getRoomState _ _). simpl.
    constructor; [|constructor].
    unfold reaches_sender. simpl. by apply bool_decide_eq_true.
Qed.

(** By contrast the emit of a [draw-start] never reaches the sender. *)
Lemma draw_start_excludes_sender S2N st c env data :
  Forall (λ e, event e = "draw-start" → reaches_sender e c = false)
         (on_draw_start S2N st c env data).2.
Proof.
  destruct data as [[[[[| | |px|] [| | |py|]]|] col w oid]|]; simpl;
    repeat constructor; simpl; try discriminate; done.
Qed.

(** *** undo *)

(** C7. When the room's log has no operation of the requesting user,
    the empty log included, the [undo] handler gets [null] from
    [undoOperation], every room reads as before (the manager itself is
    the same whenever the room was there), and nothing is emitted.  The
    requesting user is the socket of a live connection: its id is not
    the empty string. *)
Theorem undo_nothing_to_undo st c :
  conn_userId c ≠ "" →
  Forall (λ o, userId o ≠ conn_userId c) (log_of (drawingState st) (currentRoom c)) →
  let res := on_undo st c in
  (undoOperation (drawingState st) (currentRoom c) (Some (conn_userId c))).1 = None
  ∧ res.2 = []
  ∧ res.1.2 = c
  ∧ roomManager res.1.1 = roomManager st
  ∧ (∀ r, room_of (drawingState res.1.1) r = room_of (drawingState st) r)
  ∧ (is_Some (drawingState st !! currentRoom c) → res.1.1 = st).
Proof.
  intros Hid Hall res. subst res. unfold on_undo.
  rewrite undoOperation_nothing; cycle 1.
  { right. simpl. split; [by apply truthy_str_true|done]. }
  simpl. repeat split.
  - intros r. apply getRoomState_snd_lookup.
  - intros [s Hs]. rewrite (getRoomState_present _ _ _ Hs). simpl.
    apply with_drawingState_same.
Qed.

(** *** Coordinates *)

(** The point a [draw-progress] appends and relays has no negative
    coordinate. *)
Lemma draw_progress_point_clamped st c data e oid p :
  In e (on_draw_progress st c data).2 → payload e = PDrawProgress oid p →
  (0 <= x p)%Q ∧ (0 <= y p)%Q.
Proof.
  unfold on_draw_progress.
  destruct data as [[oid' pt]|]; simpl; [|intros []].
  destruct (negb (truthy_ostr oid')); [intros []|].
  destruct pt as [[rx ry]|]; [|intros []].
  destruct rx as [| | |px|]; try (intros []).
  destruct ry as [| | |py|]; try (intros []).
  destruct (getRoomState _ _) as [state m1].
  destruct (find_operation _ _) as [[i op]|]; [|intros []].
  destruct (String.eqb _ _); [|intros []].
  destruct (path op) as [pts|]; [|intros []].
  destruct (Z.of_nat (length pts) <? 10000)%Z; [|intros []].
  intros [<-|[]]. simpl. intros [= _ <-]. simpl.
  split; apply clamp0_nonneg.
Qed.

(** The [erase] handler stores and relays the point it received, and
    the [shape] handler the coordinates of its two points, untouched. *)
Lemma erase_point_as_received st c env data :
  ∃ op,
    last (log_of (drawingState (on_erase st c env data).1.1) (currentRoom c)) = Some op
    ∧ (on_erase st c env data).2
        = [ {| target := ToOthersIn (currentRoom c); event := "erase";
               payload := POperation op |} ]
    ∧ path op = Some [er_point data].
Proof.
  eexists. split; [apply log_of_addOperation_last|]. by split.
Qed.

Lemma shape_points_as_received st c env operation sp ep :
  startPoint operation = Some sp → endPoint operation = Some ep →
  ∃ op,
    last (log_of (drawingState (on_shape st c env (Some operation)).1.1) (currentRoom c))
      = Some op
    ∧ (on_shape st c env (Some operation)).2
        = [ {| target := ToOthersIn (currentRoom c); event := "shape";
               payload := POperation op |} ]
    ∧ startPoint op = Some (xy_only sp) ∧ endPoint op = Some (xy_only ep).
Proof.
  intros Hs He. unfold on_shape. rewrite Hs, He.
  eexists. split; [apply log_of_addOperation_last|]. by repeat split.
Qed.

End Relay.

(* ===================================================================== *)
(** ** What every handler preserves                                       *)
(* ===================================================================== *)

Section Invariants.
Import JS DrawingState Rooms Server Observe.

Implicit Types (m : Manager) (st : State) (c : Conn) (env : Env).

Lemma log_of_users_update m r (us : Map UserInfo) r' :
  log_of (<[r := set_users (getRoomState m r).1 us]> (getRoomState m r).2) r'
    = log_of m r'.
Proof.
  unfold log_of. destruct (decide (r = r')) as [<-|Hne].
  - rewrite room_of_insert. simpl. by rewrite getRoomState_fst.
  - rewrite room_of_insert_ne by done. by rewrite getRoomState_snd_lookup.
Qed.

Lemma log_of_addUser m r uid uname ucolor now r' :
  log_of (addUser m r uid uname ucolor now) r' = log_of m r'.
Proof.
  unfold addUser.
  pose proof (log_of_users_update m r) as H.
  destruct (getRoomState m r) as [state m1]. apply H.
Qed.

Lemma log_of_removeUser m r uid r' : log_of (removeUser m r uid) r' = log_of m r'.
Proof.
  unfold removeUser.
  pose proof (log_of_users_update m r) as H.
  destruct (getRoomState m r) as [state m1]. apply H.
Qed.

Lemma log_of_updateUserCursor m r uid p now r' :
  log_of (updateUserCursor m r uid p now) r' = log_of m r'.
Proof.
  unfold updateUserCursor.
  pose proof (log_of_users_update m r) as H.
  pose proof (getRoomState_snd_lookup m r r') as Hsnd.
  destruct (getRoomState m r) as [state m1]. simpl in *.
  destruct (Map_get (users state) uid); [apply H|].
  unfold log_of. by rewrite Hsnd.
Qed.

Lemma log_of_getStateSnapshot m r r' :
  log_of (getStateSnapshot m r).2 r' = log_of m r'.
Proof.
  unfold getStateSnapshot.
  pose proof (getRoomState_snd_lookup m r r') as Hsnd.
  destruct (getRoomState m r) as [state m1]. simpl in *.
  unfold log_of. by rewrite Hsnd.
Qed.

Lemma addOperation_logs_bounded m r op :
  logs_bounded m → logs_bounded (addOperation m r op).
Proof.
  intros Hm r'. destruct (decide (r = r')) as [<-|Hne].
  - apply addOperation_length_le, Hm.
  - unfold log_of. rewrite room_of_addOperation_ne by done. apply Hm.
Qed.

(** [undoOperation] never makes a log longer. *)
Lemma undoOperation_length m r uid r' :
  length (log_of (undoOperation m r uid).2 r') ≤ length (log_of m r').
Proof.
  unfold undoOperation.
  pose proof (getRoomState_fst m r) as Hfst.
  pose proof (getRoomState_snd_lookup m r r') as Hsnd.
  destruct (getRoomState m r) as [state m1]. simpl in *.
  assert (length (log_of m1 r') ≤ length (log_of m r')) as Hsame
    by (unfold log_of; by rewrite Hsnd).
  destruct (length (operations state) =? 0); [done|].
  destruct (if truthy_ostr uid then _ else _) as [i|]; [|done].
  destruct (operations state !! i) as [op|] eqn:Ei; [|done]. simpl.
  destruct (decide (r = r')) as [<-|Hne].
  - unfold log_of at 1. rewrite room_of_insert. simpl.
    rewrite length_delete by eauto.
    subst state. fold (log_of m r). lia.
  - unfold log_of at 1. rewrite room_of_insert_ne by done.
    fold (log_of m1 r'). done.
Qed.

Lemma on_draw_progress_length st c data r' :
  length (log_of (drawingState (on_draw_progress st c data).1.1) r')
    = length (log_of (drawingState st) r').
Proof.
  unfold on_draw_progress.
  destruct data as [[oid pt]|]; simpl; [|done].
  destruct (negb (truthy_ostr oid)); [done|].
  destruct pt as [[rx ry]|]; [|done].
  destruct rx as [| | |px|]; try done.
  destruct ry as [| | |py|]; try done.
  pose proof (getRoomState_fst (drawingState st) (currentRoom c)) as Hfst.
  pose proof (getRoomState_snd_lookup (drawingState st) (currentRoom c) r') as Hsnd.
  destruct (getRoomState _ _) as [state m1]. simpl in *.
  assert (length (log_of m1 r') = length (log_of (drawingState st) r')) as Hsame
    by (unfold log_of; by rewrite Hsnd).
  destruct (find_operation _ _) as [[i op]|]; [|done].
  destruct (String.eqb _ _); [|done].
  destruct (path op) as [pts|]; [|done].
  destruct (Z.of_nat (length pts) <? 10000)%Z; [|done]. simpl.
  destruct (decide (currentRoom c = r')) as [<-|Hne].
  - unfold log_of at 1. rewrite room_of_insert. simpl.
    rewrite length_insert. subst state. done.
  - unfold log_of at 1. rewrite room_of_insert_ne by done. done.
Qed.

Lemma stamp_and_store_logs_bounded st c env ev op :
  logs_bounded (drawingState st) →
  logs_bounded (drawingState (stamp_and_store st c env ev op).1.1).
Proof. intros H. by apply addOperation_logs_bounded. Qed.

(** The cap on the logs holds after the connection of a socket and after
    every message, whatever it carries. *)
Lemma on_connection_logs_bounded st sid env :
  logs_bounded (drawingState st) →
  logs_bounded (drawingState (on_connection st sid env).1.1).
Proof.
  intros Hb r. unfold on_connection.
  destruct (assignUserColor _ _) as [col rm2].
  pose proof (log_of_getStateSnapshot (drawingState st) DEFAULT_ROOM r) as Hs.
  destruct (getStateSnapshot _ _) as [[ops us] m1]. simpl in *.
  rewrite log_of_addUser, Hs. apply Hb.
Qed.

Lemma handle_logs_bounded S2N st c env msg :
  logs_bounded (drawingState st) →
  logs_bounded (drawingState (handle S2N st c env msg).1.1).
Proof.
  intros Hb. destruct msg; simpl.
  - (* join-room *)
    destruct data as [v|[| | | |s] nm]; simpl; try done.
    destruct (_ || _); [done|]. destruct (negb _); [done|].
    destruct (assignUserColor _ _) as [col rm2].
    intros r.
    match goal with
    | |- context [getStateSnapshot ?m ?rid] =>
        pose proof (log_of_getStateSnapshot m rid r) as Hs;
        destruct (getStateSnapshot m rid) as [[ops us] m2]
    end.
    simpl in *. rewrite Hs, log_of_addUser. apply Hb.
  - (* draw-start *)
    destruct data as [[[[[| | |px|] [| | |py|]]|] col w oid]|]; simpl; try done.
    by apply addOperation_logs_bounded.
  - (* draw-progress *)
    intros r. rewrite on_draw_progress_length. apply Hb.
  - done.
  - by apply addOperation_logs_bounded.
  - (* shape *)
    destruct data as [op|]; simpl; [|done].
    destruct (startPoint op), (endPoint op); simpl; try done.
    by apply addOperation_logs_bounded.
  - (* text *)
    destruct data as [op|]; simpl; [|done].
    destruct (text op) as [t|], (startPoint op); simpl; try done.
    destruct (truthy_str t); [|done]. by apply stamp_and_store_logs_bounded.
  - (* image *)
    destruct data as [op|]; simpl; [|done].
    destruct (imageData op) as [t|], (startPoint op); simpl; try done.
    destruct (truthy_str t); [|done]. by apply stamp_and_store_logs_bounded.
  - done.
  - (* clear-canvas *)
    intros r. destruct (clear_canvas_rooms st c env) as [Hroom Hother].
    destruct (decide (r = currentRoom c)) as [->|Hne].
    + unfold log_of. rewrite Hroom. simpl. unfold MAX_OPERATIONS. lia.
    + unfold log_of. rewrite Hother by done. apply Hb.
  - (* cursor-move *)
    intros r. rewrite log_of_updateUserCursor. apply Hb.
  - (* undo *)
    intros r. unfold on_undo.
    pose proof (undoOperation_length (drawingState st) (currentRoom c)
                  (Some (conn_userId c)) r) as Hlen.
    destruct (undoOperation _ _ _) as [[op|] m1]; simpl in *;
      specialize (Hb r); lia.
  - done.
  - (* disconnect *)
    intros r. rewrite log_of_removeUser. apply Hb.
Qed.

(** A connection made for a socket with a non-empty id is live, and
    stays so across every message. *)
Lemma on_connection_live st sid env :
  sid ≠ "" → live_conn (on_connection st sid env).1.2.
Proof.
  intros Hsid. split; [|apply connection_in_current_room].
  unfold on_connection.
  destruct (assignUserColor _ _) as [col rm2].
  by destruct (getStateSnapshot _ _) as [[ops us] m1].
Qed.

Lemma handle_live S2N st c env msg :
  live_conn c → live_conn (handle S2N st c env msg).1.2.
Proof.
  intros [Hid Hroom]. destruct msg; simpl; try (by split).
  - split; [|by apply join_room_in_current_room].
    destruct data as [v|[| | | |s] nm]; simpl; try done.
    destruct (_ || _); [done|]. destruct (negb _); [done|].
    destruct (assignUserColor _ _) as [col rm2].
    by destruct (getStateSnapshot _ _) as [[ops us] m2].
  - destruct data as [[[[[| | |px|] [| | |py|]]|] col w oid]|]; by split.
  - unfold on_draw_progress.
    destruct data as [[oid pt]|]; simpl; [|by split].
    destruct (negb (truthy_ostr oid)); [by split|].
    destruct pt as [[[| | |px|] [| | |py|]]|]; try (by split).
    destruct (getRoomState _ _) as [state m1].
    destruct (find_operation _ _) as [[i op]|]; [|by split].
    destruct (String.eqb _ _); [|by split].
    destruct (path op) as [pts|]; [|by split].
    by destruct (Z.of_nat (length pts) <? 10000)%Z.
  - destruct data as [op|]; simpl; [|by split].
    by destruct (startPoint op), (endPoint op).
  - destruct data as [op|]; simpl; [|by split].
    destruct (text op) as [t|], (startPoint op); simpl; try (by split).
    by destruct (truthy_str t).
  - destruct data as [op|]; simpl; [|by split].
    destruct (imageData op) as [t|], (startPoint op); simpl; try (by split).
    by destruct (truthy_str t).
  - unfold on_clear_canvas. by destruct (getRoomState _ _).
  - unfold on_undo. by destruct (undoOperation _ _ _) as [[op|] m1].
Qed.

(** *** Rooms are never taken out of the manager *)

Lemma keeps_rooms_refl m : keeps_rooms m m.
Proof. by intros r. Qed.

Lemma keeps_rooms_trans m1 m2 m3 :
  keeps_rooms m1 m2 → keeps_rooms m2 m3 → keeps_rooms m1 m3.
Proof. intros H12 H23 r Hr. by apply H23, H12. Qed.

Lemma keeps_rooms_insert m r (s : RoomState) : keeps_rooms m (<[r := s]> m).
Proof. intros r' Hr. apply lookup_insert_is_Some. destruct (decide (r = r')); auto. Qed.

Lemma getRoomState_keeps m r : keeps_rooms m (getRoomState m r).2.
Proof.
  unfold getRoomState. destruct (m !! r); simpl;
    [apply keeps_rooms_refl|apply keeps_rooms_insert].
Qed.

Lemma getRoomState_creates m r : is_Some ((getRoomState m r).2 !! r).
Proof.
  unfold getRoomState. destruct (m !! r) eqn:E; simpl; [by rewrite E|].
  rewrite lookup_insert_eq. by eexists.
Qed.

Lemma keeps_rooms_update m r (s : RoomState) :
  keeps_rooms m (<[r := s]> (getRoomState m r).2).
Proof.
  eapply keeps_rooms_trans; [apply getRoomState_keeps|apply keeps_rooms_insert].
Qed.

Lemma addOperation_keeps m r op : keeps_rooms m (addOperation m r op).
Proof.
  unfold addOperation. pose proof (keeps_rooms_update m r) as H.
  destruct (getRoomState m r) as [state m1]. apply H.
Qed.

Lemma addUser_keeps m r uid uname ucolor now :
  keeps_rooms m (addUser m r uid uname ucolor now).
Proof.
  unfold addUser. pose proof (keeps_rooms_update m r) as H.
  destruct (getRoomState m r) as [state m1]. apply H.
Qed.

Lemma addUser_creates m r uid uname ucolor now :
  is_Some (addUser m r uid uname ucolor now !! r).
Proof.
  unfold addUser. destruct (getRoomState m r) as [state m1].
  rewrite lookup_insert_eq. by eexists.
Qed.

Lemma removeUser_keeps m r uid : keeps_rooms m (removeUser m r uid).
Proof.
  unfold removeUser. pose proof (keeps_rooms_update m r) as H.
  destruct (getRoomState m r) as [state m1]. apply H.
Qed.

Lemma updateUserCursor_keeps m r uid p now :
  keeps_rooms m (updateUserCursor m r uid p now).
Proof.
  unfold updateUserCursor.
  pose proof (keeps_rooms_update m r) as H.
  pose proof (getRoomState_keeps m r) as H'.
  destruct (getRoomState m r) as [state m1]. simpl in *.
  destruct (Map_get _ _); [apply H|apply H'].
Qed.

Lemma getStateSnapshot_keeps m r : keeps_rooms m (getStateSnapshot m r).2.
Proof.
  unfold getStateSnapshot. pose proof (getRoomState_keeps m r) as H.
  by destruct (getRoomState m r) as [state m1].
Qed.

Lemma getStateSnapshot_creates m r : is_Some ((getStateSnapshot m r).2 !! r).
Proof.
  unfold getStateSnapshot. pose proof (getRoomState_creates m r) as H.
  by destruct (getRoomState m r) as [state m1].
Qed.

Lemma undoOperation_keeps m r uid : keeps_rooms m (undoOperation m r uid).2.
Proof.
  unfold undoOperation.
  pose proof (keeps_rooms_update m r) as H.
  pose proof (getRoomState_keeps m r) as H'.
  destruct (getRoomState m r) as [state m1]. simpl in *.
  destruct (length (operations state) =? 0); [done|].
  destruct (if truthy_ostr uid then _ else _) as [i|]; [|done].
  destruct (operations state !! i); [apply H|done].
Qed.

Lemma handle_keeps_rooms S2N st c env msg :
  keeps_rooms (drawingState st) (drawingState (handle S2N st c env msg).1.1).
Proof.
  destruct msg; simpl; try apply keeps_rooms_refl.
  - destruct data as [v|[| | | |s] nm]; simpl; try apply keeps_rooms_refl.
    destruct (_ || _); [apply keeps_rooms_refl|].
    destruct (negb _); [apply keeps_rooms_refl|].
    destruct (assignUserColor _ _) as [col rm2].
    match goal with
    | |- context [getStateSnapshot ?m ?rid] =>
        pose proof (getStateSnapshot_keeps m rid) as Hs;
        destruct (getStateSnapshot m rid) as [[ops us] m2]
    end.
    simpl in *. eapply keeps_rooms_trans; [apply addUser_keeps|exact Hs].
  - destruct data as [[[[[| | |px|] [| | |py|]]|] col w oid]|]; simpl;
      try apply keeps_rooms_refl.
    apply addOperation_keeps.
  - unfold on_draw_progress.
    destruct data as [[oid pt]|]; simpl; [|apply keeps_rooms_refl].
    destruct (negb (truthy_ostr oid)); [apply keeps_rooms_refl|].
    destruct pt as [[[| | |px|] [| | |py|]]|]; try apply keeps_rooms_refl.
    pose proof (keeps_rooms_update (drawingState st) (currentRoom c)) as H.
    pose proof (getRoomState_keeps (drawingState st) (currentRoom c)) as H'.
    destruct (getRoomState _ _) as [state m1]. simpl in *.
    destruct (find_operation _ _) as [[i op]|]; [|done].
    destruct (String.eqb _ _); [|done].
    destruct (path op) as [pts|]; [|done].
    destruct (Z.of_nat (length pts) <? 10000)%Z; [apply H|done].
  - apply addOperation_keeps.
  - destruct data as [op|]; simpl; [|apply keeps_rooms_refl].
    destruct (startPoint op), (endPoint op); simpl; try apply keeps_rooms_refl.
    apply addOperation_keeps.
  - destruct data as [op|]; simpl; [|apply keeps_rooms_refl].
    destruct (text op) as [t|], (startPoint op); simpl; try apply keeps_rooms_refl.
    destruct (truthy_str t); [apply addOperation_keeps|apply keeps_rooms_refl].
  - destruct data as [op|]; simpl; [|apply keeps_rooms_refl].
    destruct (imageData op) as [t|], (startPoint op); simpl; try apply keeps_rooms_refl.
    destruct (truthy_str t); [apply addOperation_keeps|apply keeps_rooms_refl].
  - unfold on_clear_canvas.
    set (m1 := addOperation _ _ _).
    pose proof (keeps_rooms_update m1 (currentRoom c)) as H.
    destruct (getRoomState m1 _) as [state m2]. simpl in *.
    eapply keeps_rooms_trans; [apply addOperation_keeps|apply H].
  - apply updateUserCursor_keeps.
  - unfold on_undo.
    pose proof (undoOperation_keeps (drawingState st) (currentRoom c)
                  (Some (conn_userId c))) as H.
    by destruct (undoOperation _ _ _) as [[op|] m1].
  - apply removeUser_keeps.
Qed.

(** The room of a connection has a state from the connection on. *)
Lemma on_connection_room_present st sid env :
  room_present (on_connection st sid env).1.1 (on_connection st sid env).1.2.
Proof.
  unfold room_present, on_connection.
  destruct (assignUserColor _ _) as [col rm2].
  destruct (getStateSnapshot _ _) as [[ops us] m1]. simpl.
  apply addUser_creates.
Qed.

(** Only [join-room] changes the room a closure names. *)
Lemma handle_current_room S2N st c env msg :
  (∀ data, msg ≠ JoinRoom data) →
  currentRoom (handle S2N st c env msg).1.2 = currentRoom c.
Proof.
  intros Hmsg. destruct msg; simpl; try done.
  - by destruct (Hmsg data).
  - by destruct data as [[[[[| | |px|] [| | |py|]]|] col w oid]|].
  - unfold on_draw_progress.
    destruct data as [[oid pt]|]; simpl; [|done].
    destruct (negb (truthy_ostr oid)); [done|].
    destruct pt as [[[| | |px|] [| | |py|]]|]; try done.
    destruct (getRoomState _ _) as [state m1].
    destruct (find_operation _ _) as [[i op]|]; [|done].
    destruct (String.eqb _ _); [|done].
    destruct (path op) as [pts|]; [|done].
    by destruct (Z.of_nat (length pts) <? 10000)%Z.
  - destruct data as [op|]; simpl; [|done].
    by destruct (startPoint op), (endPoint op).
  - destruct data as [op|]; simpl; [|done].
    destruct (text op) as [t|], (startPoint op); simpl; try done.
    by destruct (truthy_str t).
  - destruct data as [op|]; simpl; [|done].
    destruct (imageData op) as [t|], (startPoint op); simpl; try done.
    by destruct (truthy_str t).
  - unfold on_clear_canvas. by destruct (getRoomState _ _).
  - unfold on_undo. by destruct (undoOperation _ _ _) as [[op|] m1].
Qed.

Lemma handle_room_present S2N st c env msg :
  room_present st c →
  room_present (handle S2N st c env msg).1.1 (handle S2N st c env msg).1.2.
Proof.
  intros Hp. unfold room_present.
  assert (currentRoom (handle S2N st c env msg).1.2 = currentRoom c →
          is_Some (drawingState (handle S2N st c env msg).1.1
                     !! currentRoom (handle S2N st c env msg).1.2)) as Hsame.
  { intros ->. by apply handle_keeps_rooms. }
  destruct msg; try (apply Hsame; by apply handle_current_room).
  simpl in *.
  destruct data as [v|[| | | |s] nm]; simpl in *; try by apply Hsame.
  destruct (_ || _); [by apply Hsame|].
  destruct (negb _); [by apply Hsame|].
  destruct (assignUserColor _ _) as [col rm2].
  match goal with
  | |- context [getStateSnapshot ?m ?rid] =>
      pose proof (getStateSnapshot_creates m rid) as Hs;
      destruct (getStateSnapshot m rid) as [[ops us] m2]
  end.
  exact Hs.
Qed.

(** The three invariants along the messages of a connection. *)
Lemma run_invariants S2N msgs : ∀ st c,
  logs_bounded (drawingState st) → live_conn c → room_present st c →
  logs_bounded (drawingState (run S2N st c msgs).1)
  ∧ live_conn (run S2N st c msgs).2
  ∧ room_present (run S2N st c msgs).1 (run S2N st c msgs).2.
Proof.
  induction msgs as [|[env msg] msgs IH]; intros st c Hb Hl Hp; [done|].
  pose proof (handle_logs_bounded S2N st c env msg Hb) as H1.
  pose proof (handle_live S2N st c env msg Hl) as H2.
  pose proof (handle_room_present S2N st c env msg Hp) as H3.
  unfold run in *. simpl.
  destruct (handle S2N st c env msg) as [[st' c'] emits]. simpl in *.
  by apply IH.
Qed.

End Invariants.

(* ===================================================================== *)
(** ** Worked instances                                                   *)
(* ===================================================================== *)

Section Instances.
Import JS DrawingState Rooms Server Observe.

(** The log of 500 strokes used below. *)
Lemma full_log_length : length (log_of (room_with (replicate 500 opB)) "room") = 500.
Proof. vm_compute. reflexivity. Qed.

(** At a full log: appending [opA] to 500 copies of [opB] drops one
    [opB] at the head and leaves [opA] at the tail; on the log [[opB]]
    it only appends. *)
Lemma addOperation_caps_log_fifo_witness :
  log_of (addOperation (room_with (replicate 500 opB)) "room" opA) "room"
    = replicate 499 opB ++ [opA]
  ∧ log_of (addOperation (room_with [opB]) "room" opA) "room" = [opB; opA].
Proof.
  destruct addOperation_caps_log_fifo as (_ & Hfull & Hbelow). split.
  - destruct (Hfull (room_with (replicate 500 opB)) "room" opA) as [-> _].
    + vm_compute. reflexivity.
    + vm_compute. reflexivity.
  - rewrite (Hbelow (room_with [opB]) "room" opA).
    + reflexivity.
    + vm_compute. lia.
Defined.

(** On the log [A(u1), B(u2), C(u1)], the undo of [u1] removes [C]. *)
Lemma undoOperation_removes_latest_own_witness :
  (undoOperation (room_with [opA; opB; opC]) "room" (Some "u1")).1 = Some opC
  ∧ log_of (undoOperation (room_with [opA; opB; opC]) "room" (Some "u1")).2 "room"
      = [opA; opB].
Proof.
  destruct (undoOperation_removes_latest_own
              (room_with [opA; opB; opC]) "room" "u1" [opA; opB] opC [])
    as (H1 & _ & H3 & _).
  - discriminate.
  - vm_compute. reflexivity.
  - reflexivity.
  - constructor.
  - split; [exact H1|exact H3].
Defined.

(** Why the id has to be that of a socket: [if (userId)] takes the
    empty string for no user id, and the operation at the tail goes,
    here one of [u2]. *)
Lemma undoOperation_empty_userId_takes_foreign :
  let res := undoOperation (room_with [opA; opB]) "room" (Some "") in
  userId opB = "u2"
  ∧ res.1 = Some opB
  ∧ log_of res.2 "room" = [opA]
  ∧ filter (λ o, userId o ≠ "") (log_of res.2 "room")
      ≠ filter (λ o, userId o ≠ "") [opA; opB].
Proof.
  vm_compute. repeat split. discriminate.
Qed.

(** No user id, on the log [A(u1), B(u2)] and on the empty log. *)
Lemma undoOperation_without_userId_witness :
  ((undoOperation (room_with [opA; opB]) "room" None).1 = Some opB
   ∧ log_of (undoOperation (room_with [opA; opB]) "room" None).2 "room" = [opA])
  ∧ ((undoOperation (room_with []) "room" None).1 = None
     ∧ log_of (undoOperation (room_with []) "room" None).2 "room" = []).
Proof.
  split.
  - destruct (proj1 (undoOperation_without_userId (room_with [opA; opB]) "room")
                [opA] opB) as (_ & Hret & Hlog & _).
    + vm_compute. reflexivity.
    + split; [exact Hret|exact Hlog].
  - destruct (proj2 (undoOperation_without_userId (room_with []) "room"))
      as (Hret & Hlog & _).
    + vm_compute. reflexivity.
    + split; [exact Hret|exact Hlog].
Defined.

(** C3 at an [erase] with a negative coordinate: the point is stored in
    the log and relayed to the room as it came. *)
Lemma erase_keeps_negative_coordinate :
  let data := {| er_point := {| x := -5; y := 3; pressure := None |}; er_radius := 10 |} in
  let res := on_erase (state_with []) (conn_of "u1") env0 data in
  ∃ op,
    log_of (drawingState res.1.1) "room" = [op]
    ∧ res.2 = [ {| target := ToOthersIn "room"; event := "erase";
                  payload := POperation op |} ]
    ∧ path op = Some [ {| x := -5; y := 3; pressure := None |} ]
    ∧ (-5 < 0)%Q.
Proof.
  vm_compute. eexists. repeat split.
Qed.

(** On the log [A(u1)]: progress sent by [u2] on the id A. *)
Lemma draw_progress_foreign_or_unknown_dropped_witness :
  on_draw_progress (state_with [opA]) (conn_of "u2")
    (Some {| dp_operationId := Some "A";
             dp_point := Some {| raw_x := JNum 3; raw_y := JNum 4 |} |})
    = (state_with [opA], conn_of "u2", []).
Proof.
  destruct (draw_progress_foreign_or_unknown_dropped
              (state_with [opA]) (conn_of "u2") "A"
              (Some {| raw_x := JNum 3; raw_y := JNum 4 |}))
    as (Hemit & Hconn & _ & _ & Hsame).
  - intros i op Hfind. vm_compute in Hfind.
    injection Hfind as _ <-. discriminate.
  - specialize (Hsame ltac:(by eexists)).
    destruct (on_draw_progress _ _ _) as [[st' c'] emits].
    simpl in *. by subst.
Defined.

(** The room id [My Room!] is refused. *)
Lemma join_room_invalid_id_rejected_witness :
  ∃ msg,
    on_join_room (state_with []) (conn_of "u1") env0 (JoinObject (JStr "My Room!") None)
      = (state_with [], conn_of "u1",
         [ {| target := ToSender; event := "error"; payload := PError msg |} ]).
Proof.
  apply join_room_invalid_id_rejected.
  right. right. exists "My Room!", " "%char.
  split; [reflexivity|]. split; [|reflexivity].
  simpl. tauto.
Defined.

(** Clearing a room that holds three operations. *)
Lemma clear_canvas_collapses_log_witness :
  let res := on_clear_canvas (state_with [opA; opB; opC]) (conn_of "u1") env0 in
  log_of (drawingState res.1.1) "room"
    = [bare_op "uuid-0" "u1" clear 1700000000000]
  ∧ Forall (λ e, reaches_sender e (conn_of "u1") = true) res.2.
Proof.
  destruct (clear_canvas_collapses_log (state_with [opA; opB; opC]) (conn_of "u1") env0)
    as (Hlog & _ & _ & _ & _ & _ & _ & _ & Hreach).
  split; [exact Hlog|].
  apply Hreach. unfold in_current_room.
  apply (bool_decide_unpack _). vm_compute. exact I.
Defined.

(** On the log [A(u1)], the undo of [u2] finds nothing. *)
Lemma undo_nothing_to_undo_witness :
  on_undo (state_with [opA]) (conn_of "u2") = (state_with [opA], conn_of "u2", []).
Proof.
  destruct (undo_nothing_to_undo (state_with [opA]) (conn_of "u2"))
    as (_ & Hemit & Hconn & _ & _ & Hsame).
  - discriminate.
  - vm_compute. constructor; [discriminate|constructor].
  - specialize (Hsame ltac:(by eexists)).
    destruct (on_undo _ _) as [[st' c'] emits]. simpl in *. by subst.
Defined.

(** Why the id of the connection must not be empty: [undoOperation]
    reads an empty user id as none, so the handler would remove the
    operation at the tail and tell the whole room. *)
Lemma undo_with_empty_conn_id_is_unscoped :
  let st := state_with [opA] in
  let c := conn_of "" in
  log_of (drawingState (on_undo st c).1.1) "room" = []
  ∧ (on_undo st c).2
      = [ {| target := ToEveryoneIn "room"; event := "undo";
             payload := PUndo "A" "u1" |} ].
Proof.
  vm_compute. by split.
Qed.

(** A [draw-start] without a line width: the operation at the tail of
    the log has the width 5, and it is the one relayed.  The widths 500
    and -5 give 100 and 1. *)
Lemma draw_start_lineWidth_default_then_clamp_witness :
  let d w := {| ds_point := Some {| raw_x := JNum 3; raw_y := JNum 4 |};
                ds_color := JStr "#112233"; ds_lineWidth := w;
                ds_operationId := Some "op-1" |} in
  let res := on_draw_start no_coercion (state_with []) (conn_of "u1") env0
               (Some (d JUndefined)) in
  (∃ op, last (log_of (drawingState res.1.1) "room") = Some op
         ∧ res.2 = [ {| target := ToOthersIn "room"; event := "draw-start";
                        payload := POperation op |} ]
         ∧ lineWidth op = Some (Fin 5))
  ∧ clamp_lineWidth no_coercion (JNum 500) = Fin 100
  ∧ clamp_lineWidth no_coercion (JNum (-5)) = Fin 1.
Proof.
  intros d res. split; [|split; reflexivity].
  destruct (draw_start_lineWidth_default_then_clamp no_coercion
              (state_with []) (conn_of "u1") env0 (d JUndefined) 3 4 eq_refl)
    as (op & _ & Hlog & Hemit & _ & Hdefault & _).
  exists op. split; [exact Hlog|]. split; [exact Hemit|].
  apply Hdefault. reflexivity.
Defined.

(** The server takes the operation id of a [draw-start] as it comes: two
    strokes started under one id are both in the log, and so in the
    snapshot a later joiner receives. *)
Lemma log_can_repeat_an_id :
  let d := {| ds_point := Some {| raw_x := JNum 3; raw_y := JNum 4 |};
              ds_color := JStr "#112233"; ds_lineWidth := JNum 5;
              ds_operationId := Some "op-1" |} in
  let st := (run no_coercion (state_with []) (conn_of "u1")
               [(env0, DrawStart (Some d)); (env0, DrawStart (Some d))]).1 in
  ids (getStateSnapshot (drawingState st) "room").1.1 = ["op-1"; "op-1"].
Proof. vm_compute. reflexivity. Qed.

End Instances.

(* ===================================================================== *)
(** ** The client mirror                                                  *)
(* ===================================================================== *)

Section Mirror.
Import JS DrawingState Observe.
Import Client (CanvasManager, loadOperations, load_one, copyOperation, copyPoint,
               redrawCanvas).

Implicit Types (cm : CanvasManager) (snapshot : list (option DrawingOperation)).

Lemma copyOperation_same (op : DrawingOperation) : copyOperation op = op.
Proof.
  destruct op as [? ? ? ? ? ? ? ? [[]|] [[]|] ? ? ? ? ?]; reflexivity.
Qed.

Lemma load_loop cm snapshot :
  foldl load_one cm snapshot
    = {| Client.operations := Client.operations cm ++ kept snapshot;
         Client.undoStack := Client.undoStack cm;
         Client.remoteOperations := fill (Client.remoteOperations cm) (kept snapshot);
         Client.currentOperation := Client.currentOperation cm |}.
Proof.
  revert cm. induction snapshot as [|entry snapshot IH]; intros cm; simpl.
  - rewrite app_nil_r. by destruct cm.
  - rewrite IH. unfold kept, fill. destruct entry as [op|]; simpl; [|done].
    destruct (truthy_str (id op)); simpl; [|done].
    rewrite copyOperation_same. by rewrite <- app_assoc.
Qed.

Lemma loadOperations_closed_form cm snapshot :
  (loadOperations cm snapshot).1
    = {| Client.operations := kept snapshot;
         Client.undoStack := [];
         Client.remoteOperations := fill [] (kept snapshot);
         Client.currentOperation := Client.currentOperation cm |}.
Proof. unfold loadOperations. simpl. by rewrite load_loop. Qed.

Lemma loadOperations_calls cm snapshot :
  (loadOperations cm snapshot).2 = redrawCanvas (loadOperations cm snapshot).1.
Proof. reflexivity. Qed.

Lemma Map_set_keys {V} (m : Map V) k v :
  ∀ k', k' ∈ (Map_set m k v).*1 → k' = k ∨ k' ∈ m.*1.
Proof.
  induction m as [|[k0 v0] m IH]; simpl; intros k'.
  - intros ->%list_elem_of_singleton. by left.
  - destruct (String.eqb_spec k0 k) as [->|Hne]; simpl.
    + rewrite !elem_of_cons. tauto.
    + rewrite !elem_of_cons. intros [->|Hin]; [tauto|].
      destruct (IH _ Hin); tauto.
Qed.

Lemma Map_set_NoDup {V} (m : Map V) k v : NoDup m.*1 → NoDup (Map_set m k v).*1.
Proof.
  induction m as [|[k0 v0] m IH]; simpl; intros Hnd.
  - apply NoDup_singleton.
  - apply NoDup_cons in Hnd as [Hnotin Hnd].
    destruct (String.eqb_spec k0 k) as [->|Hne]; simpl.
    + by apply NoDup_cons.
    + apply NoDup_cons. split; [|by apply IH].
      intros Hin. destruct (Map_set_keys _ _ _ _ Hin) as [Heq|Hin']; [by apply Hne|by apply Hnotin].
Qed.

Lemma fill_NoDup ops : ∀ m, NoDup m.*1 → NoDup (fill m ops).*1.
Proof.
  induction ops as [|op ops IH]; intros m Hm; simpl; [done|].
  apply IH. by apply Map_set_NoDup.
Qed.

(** C8. Loading a snapshot twice in succession leaves the mirror as
    loading it once does, and makes the same drawing calls: each load
    starts by emptying the list, the undo stack and the id-keyed map.
    After two loads, as after one, the list holds the snapshot's entries
    that have an id, each as often as the snapshot has it and in its
    order, so the second load duplicates nothing: where the snapshot has
    no id twice, neither has the list; the keys of the id-keyed map are
    pairwise different in every case. *)
Theorem loadOperations_twice_is_once cm snapshot :
  let once := loadOperations cm snapshot in
  let twice := loadOperations once.1 snapshot in
  twice = once
  ∧ Client.operations twice.1 = kept snapshot
  ∧ Client.undoStack twice.1 = []
  ∧ (NoDup (ids (Client.operations twice.1)) ↔ NoDup (ids (kept snapshot)))
  ∧ NoDup (Client.remoteOperations twice.1).*1.
Proof.
  intros once twice.
  assert (Heq : twice = once).
  { subst once twice. apply injective_projections.
    - by rewrite !loadOperations_closed_form.
    - by rewrite !loadOperations_calls, !loadOperations_closed_form. }
  rewrite Heq. subst once. rewrite loadOperations_closed_form. simpl.
  repeat split; try done.
  apply fill_NoDup. constructor.
Qed.

(** The list is built by [push] alone: a snapshot in which one id comes
    twice gives a list with both entries, after one load and after two. *)
Lemma loadOperations_keeps_repeated_id :
  let cm0 := {| Client.operations := []; Client.undoStack := [];
                Client.remoteOperations := []; Client.currentOperation := None |} in
  let snapshot := [Some opA; Some opA] in
  Client.operations (loadOperations cm0 snapshot).1 = [opA; opA]
  ∧ Client.operations (loadOperations (loadOperations cm0 snapshot).1 snapshot).1
      = [opA; opA].
Proof. split; reflexivity. Qed.

End Mirror.

(* ===================================================================== *)
(** ** Presence and the room registry                                     *)
(* ===================================================================== *)

Section MapModel.
Import JS Observe.
Context {V : Type}.
Implicit Types (m : Map V) (k : string) (v : V).

Lemma Map_get_set_eq m k v : Map_get (Map_set m k v) k = Some v.
Proof.
  induction m as [|[k0 v0] m IH]; simpl.
  - by rewrite String.eqb_refl.
  - destruct (String.eqb_spec k0 k) as [->|Hne]; simpl.
    + by rewrite String.eqb_refl.
    + by destruct (String.eqb_spec k0 k).
Qed.

Lemma Map_get_set_ne m k k' v : k ≠ k' → Map_get (Map_set m k v) k' = Map_get m k'.
Proof.
  intros Hne. induction m as [|[k0 v0] m IH]; simpl.
  - by destruct (String.eqb_spec k k').
  - destruct (String.eqb_spec k0 k) as [->|Hk]; simpl.
    + by destruct (String.eqb_spec k k').
    + by rewrite IH.
Qed.

Lemma Map_get_None m k : Map_get m k = None ↔ k ∉ m.*1.
Proof.
  induction m as [|[k0 v0] m IH]; simpl.
  - split; [intros _; apply not_elem_of_nil|done].
  - rewrite not_elem_of_cons. destruct (String.eqb_spec k0 k) as [->|Hk].
    + split; [done|]. intros [? _]. done.
    + rewrite IH. split; [by split|by intros [_ ?]].
Qed.

Lemma Map_get_Some_elem m k v : Map_get m k = Some v → (k, v) ∈ m.
Proof.
  induction m as [|[k0 v0] m IH]; simpl; [done|].
  destruct (String.eqb_spec k0 k) as [->|Hk].
  - intros [= ->]. apply elem_of_cons. by left.
  - intros H. apply elem_of_cons. right. by apply IH.
Qed.

Lemma Map_elem_get m k v : Map_wf m → (k, v) ∈ m → Map_get m k = Some v.
Proof.
  unfold Map_wf. induction m as [|[k0 v0] m IH]; simpl.
  - by intros _ ?%elem_of_nil.
  - intros [Hnotin Hnd]%NoDup_cons [[= <- <-]|Hin]%elem_of_cons.
    + by rewrite String.eqb_refl.
    + destruct (String.eqb_spec k0 k) as [->|Hk]; [|by apply IH].
      destruct Hnotin. apply list_elem_of_fmap. by exists (k, v).
Qed.

(** Setting a key that is there keeps the keys as they stand; setting a
    new key puts it last. *)
Lemma Map_set_keys_order m k v :
  (Map_set m k v).*1 = if Map_has m k then m.*1 else m.*1 ++ [k].
Proof.
  induction m as [|[k0 v0] m IH]; [done|].
  unfold Map_has in *. simpl Map_set. simpl Map_get.
  destruct (String.eqb_spec k0 k) as [->|Hk]; [done|].
  rewrite !fmap_cons, IH. by destruct (Map_get m k).
Qed.

Lemma filter_all {A} (P : A → Prop) `{∀ a, Decision (P a)} (l : list A) :
  Forall P l → filter P l = l.
Proof.
  intros Hall. induction l as [|a l IH]; [done|].
  apply Forall_cons in Hall as [Ha Hl].
  rewrite filter_cons_True by done. by rewrite IH.
Qed.

(** With every key held once, deleting a key filters it out. *)
Lemma Map_delete_filter m k :
  Map_wf m → Map_delete m k = filter (λ kv, kv.1 ≠ k) m.
Proof.
  unfold Map_wf, Map in *. induction m as [|[k0 v0] m IH]; simpl; [done|].
  intros [Hnotin Hnd]%NoDup_cons. rewrite filter_cons. simpl.
  destruct (String.eqb_spec k0 k) as [->|Hk].
  - rewrite decide_False by (intros H; by apply H).
    symmetry. apply filter_all. apply Forall_forall. intros [k1 v1] Hin Heq.
    simpl in Heq. subst k1. apply Hnotin, list_elem_of_fmap. by exists (k, v1).
  - rewrite decide_True by done. by rewrite IH.
Qed.

Lemma Map_set_wf m k v : Map_wf m → Map_wf (Map_set m k v).
Proof.
  unfold Map_wf. rewrite Map_set_keys_order.
  destruct (Map_has m k) eqn:E; [done|]. intros Hnd.
  apply NoDup_app. split; [done|]. split; [|apply NoDup_singleton].
  intros k' Hin ->%list_elem_of_singleton.
  unfold Map_has in E. destruct (Map_get m k) eqn:G; [done|].
  by apply Map_get_None in G.
Qed.

Lemma Map_delete_wf m k : Map_wf m → Map_wf (Map_delete m k).
Proof.
  intros Hwf. rewrite Map_delete_filter by done. unfold Map_wf in *.
  eapply sublist_NoDup; [exact Hwf|]. apply fmap_sublist, sublist_filter.
Qed.

Lemma Map_get_delete_eq m k : Map_wf m → Map_get (Map_delete m k) k = None.
Proof.
  intros Hwf. apply Map_get_None. rewrite Map_delete_filter by done.
  intros [[k1 v1] [Heq Hin]]%list_elem_of_fmap. simpl in Heq. subst k1.
  apply list_elem_of_filter in Hin as [Hne _]. by apply Hne.
Qed.

Lemma Map_get_delete_ne m k k' : k ≠ k' → Map_get (Map_delete m k) k' = Map_get m k'.
Proof.
  intros Hne. induction m as [|[k0 v0] m IH]; simpl; [done|].
  destruct (String.eqb_spec k0 k) as [->|Hk]; simpl.
  - by destruct (String.eqb_spec k k').
  - by rewrite IH.
Qed.

End MapModel.

Section Presence.
Import JS DrawingState Observe.

Implicit Types (m : Manager) (r uid : string).

Lemma room_of_users_update m r (us : Map UserInfo) :
  room_of (<[r := set_users (getRoomState m r).1 us]> (getRoomState m r).2) r
    = set_users (room_of m r) us
  ∧ ∀ r', r' ≠ r →
      room_of (<[r := set_users (getRoomState m r).1 us]> (getRoomState m r).2) r'
        = room_of m r'.
Proof.
  split.
  - rewrite room_of_insert. by rewrite getRoomState_fst.
  - intros r' Hne. rewrite room_of_insert_ne by done. apply getRoomState_snd_lookup.
Qed.

Lemma addUser_room m r uid uname ucolor now :
  room_of (addUser m r uid uname ucolor now) r
    = set_users (room_of m r)
        (Map_set (users_of m r) uid
           {| user_id := uid; user_name := uname; user_color := ucolor;
              cursorPosition := None; lastSeen := now |})
  ∧ ∀ r', r' ≠ r → room_of (addUser m r uid uname ucolor now) r' = room_of m r'.
Proof.
  unfold addUser, users_of.
  pose proof (room_of_users_update m r) as H.
  pose proof (getRoomState_fst m r) as Hfst.
  destruct (getRoomState m r) as [state m1]. simpl in *. subst state. apply H.
Qed.

(** X1. [addUser] files the user under its id with the name and color
    given, no cursor and the clock as [lastSeen].  A user who is already
    in the room is replaced where it stands, a new one goes last; the
    other users, every log and every other room are as before. *)
Theorem addUser_registers m r uid uname ucolor now :
  let m' := addUser m r uid uname ucolor now in
  Map_get (users_of m' r) uid
    = Some {| user_id := uid; user_name := uname; user_color := ucolor;
              cursorPosition := None; lastSeen := now |}
  ∧ (∀ uid', uid' ≠ uid → Map_get (users_of m' r) uid' = Map_get (users_of m r) uid')
  ∧ (users_of m' r).*1
      = (if Map_has (users_of m r) uid then (users_of m r).*1
         else (users_of m r).*1 ++ [uid])
  ∧ (∀ r', log_of m' r' = log_of m r')
  ∧ (∀ r', r' ≠ r → room_of m' r' = room_of m r').
Proof.
  intros m'. subst m'.
  destruct (addUser_room m r uid uname ucolor now) as [Hr Hother].
  assert (users_of (addUser m r uid uname ucolor now) r
          = Map_set (users_of m r) uid
              {| user_id := uid; user_name := uname; user_color := ucolor;
                 cursorPosition := None; lastSeen := now |}) as ->
    by (unfold users_of at 1; by rewrite Hr).
  repeat split.
  - apply Map_get_set_eq.
  - intros uid' Hne. by apply Map_get_set_ne.
  - apply Map_set_keys_order.
  - intros r'. apply log_of_addUser.
  - exact Hother.
Qed.

Lemma removeUser_room m r uid :
  room_of (removeUser m r uid) r
    = set_users (room_of m r) (Map_delete (users_of m r) uid)
  ∧ ∀ r', r' ≠ r → room_of (removeUser m r uid) r' = room_of m r'.
Proof.
  unfold removeUser, users_of.
  pose proof (room_of_users_update m r) as H.
  pose proof (getRoomState_fst m r) as Hfst.
  destruct (getRoomState m r) as [state m1]. simpl in *. subst state. apply H.
Qed.

(** X2. [removeUser] takes the user out of the room and nothing else:
    the others stay in their order, and so do every log and every other
    room; for a user who is not in the room the users are the same. *)
Theorem removeUser_forgets m r uid :
  Map_wf (users_of m r) →
  let m' := removeUser m r uid in
  Map_get (users_of m' r) uid = None
  ∧ users_of m' r = filter (λ kv, kv.1 ≠ uid) (users_of m r)
  ∧ (Map_get (users_of m r) uid = None → users_of m' r = users_of m r)
  ∧ (∀ r', log_of m' r' = log_of m r')
  ∧ (∀ r', r' ≠ r → room_of m' r' = room_of m r').
Proof.
  intros Hwf m'. subst m'.
  destruct (removeUser_room m r uid) as [Hr Hother].
  assert (users_of (removeUser m r uid) r = Map_delete (users_of m r) uid) as ->
    by (unfold users_of at 1; by rewrite Hr).
  repeat split.
  - by apply Map_get_delete_eq.
  - by apply Map_delete_filter.
  - intros Hnone. rewrite Map_delete_filter by done.
    unfold Map in *. apply filter_all, Forall_forall. intros [k u] Hin Heq.
    simpl in Heq. subst k. apply Map_get_None in Hnone.
    apply Hnone, list_elem_of_fmap. by exists (uid, u).
  - intros r'. apply log_of_removeUser.
  - exact Hother.
Qed.

Lemma updateUserCursor_room m r uid p now :
  match Map_get (users_of m r) uid with
  | Some u =>
      room_of (updateUserCursor m r uid p now) r
        = set_users (room_of m r)
            (Map_set (users_of m r) uid
               {| user_id := user_id u; user_name := user_name u;
                  user_color := user_color u;
                  cursorPosition := Some p; lastSeen := now |})
  | None => room_of (updateUserCursor m r uid p now) r = room_of m r
  end
  ∧ ∀ r', r' ≠ r → room_of (updateUserCursor m r uid p now) r' = room_of m r'.
Proof.
  unfold updateUserCursor, users_of.
  pose proof (room_of_users_update m r) as H.
  pose proof (getRoomState_fst m r) as Hfst.
  pose proof (getRoomState_snd_lookup m r) as Hsnd.
  destruct (getRoomState m r) as [state m1]. simpl in *. subst state.
  destruct (Map_get (users (room_of m r)) uid) as [u|]; [apply H|].
  split; [apply Hsnd|]. intros r' _. apply Hsnd.
Qed.

(** X3. [updateUserCursor] on a user of the room sets the cursor and
    refreshes [lastSeen], keeping the id, name, color and place of the
    user; on a user who is not in the room it changes no room: nobody is
    created by a cursor move. *)
Theorem updateUserCursor_touches_known_only m r uid p now :
  let m' := updateUserCursor m r uid p now in
  (∀ u, Map_get (users_of m r) uid = Some u →
     Map_get (users_of m' r) uid
       = Some {| user_id := user_id u; user_name := user_name u;
                 user_color := user_color u;
                 cursorPosition := Some p; lastSeen := now |}
     ∧ (users_of m' r).*1 = (users_of m r).*1
     ∧ ∀ uid', uid' ≠ uid → Map_get (users_of m' r) uid' = Map_get (users_of m r) uid')
  ∧ (Map_get (users_of m r) uid = None → ∀ r', room_of m' r' = room_of m r')
  ∧ (∀ r', log_of m' r' = log_of m r')
  ∧ (∀ r', r' ≠ r → room_of m' r' = room_of m r').
Proof.
  intros m'. subst m'.
  destruct (updateUserCursor_room m r uid p now) as [Hr Hother].
  repeat split.
  - rewrite H in Hr. unfold users_of at 1. rewrite Hr. simpl. apply Map_get_set_eq.
  - rewrite H in Hr. unfold users_of at 1. rewrite Hr. simpl.
    rewrite Map_set_keys_order. unfold Map_has. by rewrite H.
  - intros uid' Hne. rewrite H in Hr. unfold users_of at 1. rewrite Hr. simpl.
    by apply Map_get_set_ne.
  - intros Hnone r'. rewrite Hnone in Hr.
    destruct (decide (r' = r)) as [->|Hne]; [done|by apply Hother].
  - intros r'. apply log_of_updateUserCursor.
  - exact Hother.
Qed.

Lemma filter_ext_in {A} (P Q : A → Prop) `{∀ a, Decision (P a)} `{∀ a, Decision (Q a)}
  (l : list A) :
  (∀ a, a ∈ l → (P a ↔ Q a)) → filter P l = filter Q l.
Proof.
  induction l as [|a l IH]; intros Hext; [done|].
  rewrite !filter_cons.
  destruct (decide (P a)) as [HP|HP], (decide (Q a)) as [HQ|HQ].
  - f_equal. apply IH. intros b Hb. apply Hext. by right.
  - destruct HQ. apply Hext; [by left|done].
  - destruct HP. apply Hext; [by left|done].
  - apply IH. intros b Hb. apply Hext. by right.
Qed.

Lemma foldl_Map_delete {V} (ks : list string) : ∀ (us : Map V),
  Map_wf us → foldl Map_delete us ks = filter (λ kv, kv.1 ∉ ks) us.
Proof.
  induction ks as [|k ks IH]; intros us Hwf; simpl.
  - unfold Map in *. symmetry. apply filter_all, Forall_forall.
    intros kv _. apply not_elem_of_nil.
  - rewrite IH by (by apply Map_delete_wf).
    rewrite Map_delete_filter by done. unfold Map in *.
    rewrite list_filter_filter. apply list_filter_iff.
    intros kv. rewrite not_elem_of_cons. tauto.
Qed.

Lemma Map_wf_same_key {V} (us : Map V) k v1 v2 :
  Map_wf us → (k, v1) ∈ us → (k, v2) ∈ us → v1 = v2.
Proof.
  intros Hwf H1 H2.
  apply (Map_elem_get _ _ _ Hwf) in H1. apply (Map_elem_get _ _ _ Hwf) in H2.
  congruence.
Qed.

Lemma cleanupInactiveUsers_room m r now :
  room_of (cleanupInactiveUsers m r now) r
    = set_users (room_of m r)
        (foldl Map_delete (users_of m r)
           (filter (λ kv, USER_TIMEOUT < now - lastSeen kv.2)%Z (users_of m r)).*1)
  ∧ ∀ r', r' ≠ r → room_of (cleanupInactiveUsers m r now) r' = room_of m r'.
Proof.
  unfold cleanupInactiveUsers, users_of.
  pose proof (room_of_users_update m r) as H.
  pose proof (getRoomState_fst m r) as Hfst.
  destruct (getRoomState m r) as [state m1]. simpl in *. subst state. apply H.
Qed.

(** X4. [cleanupInactiveUsers] leaves in the room exactly the users
    last seen at most 30000 ms before the clock, in the order they had,
    and takes out the others; the logs and the other rooms are as
    before. *)
Theorem cleanupInactiveUsers_sweeps m r now :
  Map_wf (users_of m r) →
  let m' := cleanupInactiveUsers m r now in
  users_of m' r = filter (λ kv, active now kv.2) (users_of m r)
  ∧ (∀ uid u, Map_get (users_of m' r) uid = Some u →
       (now - lastSeen u ≤ 30000)%Z ∧ Map_get (users_of m r) uid = Some u)
  ∧ (∀ r', log_of m' r' = log_of m r')
  ∧ (∀ r', r' ≠ r → room_of m' r' = room_of m r').
Proof.
  intros Hwf m'. subst m'.
  destruct (cleanupInactiveUsers_room m r now) as [Hr Hother].
  assert (users_of (cleanupInactiveUsers m r now) r
          = filter (λ kv, active now kv.2) (users_of m r)) as Hus.
  { unfold users_of at 1. rewrite Hr. simpl.
    rewrite foldl_Map_delete by done. unfold Map in *.
    apply filter_ext_in. intros [k u] Hin. simpl.
    rewrite list_elem_of_fmap. unfold active, USER_TIMEOUT. split.
    - intros Hnot. destruct (decide (now - lastSeen u ≤ 30000)%Z) as [|Hgt]; [done|].
      destruct Hnot. exists (k, u). split; [done|].
      apply list_elem_of_filter. simpl. split; [lia|done].
    - intros Hact [[k' u'] [Hk [Hold Hin']%list_elem_of_filter]].
      simpl in *. subst k'.
      assert (u' = u) as -> by (eapply Map_wf_same_key; eauto).
      lia. }
  split; [exact Hus|]. split; [|split; [|exact Hother]].
  - intros uid u Hget. apply Map_get_Some_elem in Hget. rewrite Hus in Hget.
    unfold Map in *. apply list_elem_of_filter in Hget as [Hact Hin].
    split; [exact Hact|]. by apply Map_elem_get.
  - intros r'. unfold log_of. destruct (decide (r' = r)) as [->|Hne].
    + by rewrite Hr.
    + by rewrite Hother.
Qed.

End Presence.

Section Registry.
Import JS Rooms Observe.

Implicit Types (rm : RoomManager) (uid : string).

Lemma assignUserColor_cases rm uid :
  let res := assignUserColor rm uid in
  getUserColor res.2 uid = Some res.1
  ∧ assignUserColor res.2 uid = res
  ∧ (∀ uid', uid' ≠ uid → getUserColor res.2 uid' = getUserColor rm uid')
  ∧ (getUserColor rm uid = None →
       DEFAULT_COLORS !! (colorIndex rm mod 10) = Some res.1
       ∧ colorIndex res.2 = S (colorIndex rm))
  ∧ (is_Some (getUserColor rm uid) → res.2 = rm).
Proof.
  intros res. subst res. unfold assignUserColor, getUserColor.
  destruct (userColors rm !! uid) as [c|] eqn:E; cbn [fst snd userColors colorIndex].
  - rewrite E. by repeat split.
  - rewrite lookup_insert_eq. repeat split; try done.
    + intros uid' Hne. by rewrite lookup_insert_ne.
    + change (length DEFAULT_COLORS) with 10.
      assert (colorIndex rm mod 10 < length DEFAULT_COLORS) as Hlt
        by (change (length DEFAULT_COLORS) with 10; apply Nat.mod_upper_bound; lia).
      apply lookup_lt_is_Some in Hlt as [c Hc]. by rewrite Hc.
Qed.

(** X5. [assignUserColor] is sticky: the color it returns is the one
    recorded for the user, and asking again returns the same color and
    changes nothing.  A user without a color gets the palette entry at
    [colorIndex] modulo 10 and moves the index on by one; a user who has
    one leaves the manager as it is; nobody else's color changes. *)
Theorem assignUserColor_sticky rm uid :
  let res := assignUserColor rm uid in
  getUserColor res.2 uid = Some res.1
  ∧ assignUserColor res.2 uid = res
  ∧ (∀ uid', uid' ≠ uid → getUserColor res.2 uid' = getUserColor rm uid')
  ∧ (getUserColor rm uid = None →
       DEFAULT_COLORS !! (colorIndex rm mod 10) = Some res.1
       ∧ colorIndex res.2 = S (colorIndex rm))
  ∧ (is_Some (getUserColor rm uid) → res.2 = rm).
Proof.
  intros res. subst res. unfold assignUserColor, getUserColor.
  destruct (userColors rm !! uid) as [c|] eqn:E; cbn [fst snd userColors colorIndex].
  - rewrite E. by repeat split.
  - rewrite lookup_insert_eq. repeat split; try done.
    + intros uid' Hne. by rewrite lookup_insert_ne.
    + change (length DEFAULT_COLORS) with 10.
      assert (colorIndex rm mod 10 < length DEFAULT_COLORS) as Hlt
        by (change (length DEFAULT_COLORS) with 10; apply Nat.mod_upper_bound; lia).
      apply lookup_lt_is_Some in Hlt as [c Hc]. by rewrite Hc.
Qed.

Lemma assign_all_fresh uids : ∀ rm,
  NoDup uids →
  (∀ uid, uid ∈ uids → getUserColor rm uid = None) →
  colorIndex (assign_all rm uids) = colorIndex rm + length uids
  ∧ (∀ uid, uid ∉ uids →
       getUserColor (assign_all rm uids) uid = getUserColor rm uid)
  ∧ (∀ k uid, uids !! k = Some uid →
       getUserColor (assign_all rm uids) uid
         = Some (default "" (DEFAULT_COLORS !! ((colorIndex rm + k) mod 10)))).
Proof.
  induction uids as [|u uids IH]; intros rm Hnd Hfresh.
  - split; [simpl; lia|]. split; [done|].
    intros k uid Hk. by rewrite lookup_nil in Hk.
  - apply NoDup_cons in Hnd as [Hu Hnd].
    destruct (assignUserColor_cases rm u) as (Hget & _ & Hother & Hnew & _).
    destruct (Hnew (Hfresh u ltac:(by left))) as [Hcol Hidx].
    destruct (IH (assignUserColor rm u).2 Hnd) as (IHidx & IHother & IHk).
    { intros uid Hin. rewrite Hother; [apply Hfresh; by right|].
      intros ->. by apply Hu. }
    unfold assign_all in *. cbn [foldl length].
    split; [|split].
    + rewrite IHidx, Hidx. lia.
    + intros uid [Hne Hnotin]%not_elem_of_cons.
      rewrite IHother by done. by apply Hother.
    + intros [|k] uid Hk; simpl in Hk.
      * injection Hk as <-. rewrite IHother by done. rewrite Hget.
        rewrite Nat.add_0_r, Hcol. done.
      * rewrite (IHk k uid Hk), Hidx. do 4 f_equal. lia.
Qed.

(** X6. Users who take a color one after the other from a new manager
    get the palette in order and round again: the user at position [k]
    has the entry [k] modulo 10, so the eleventh shares the color of the
    first. *)
Theorem palette_round_robin (uids : list string) k uid :
  NoDup uids →
  uids !! k = Some uid →
  getUserColor (assign_all new_room_manager uids) uid = DEFAULT_COLORS !! (k mod 10).
Proof.
  intros Hnd Hk.
  destruct (assign_all_fresh uids new_room_manager Hnd) as (_ & _ & Hcol).
  { intros u _. unfold getUserColor. simpl. apply lookup_empty. }
  rewrite (Hcol k uid Hk). cbn [colorIndex new_room_manager Nat.add].
  assert (k mod 10 < length DEFAULT_COLORS) as Hlt
    by (change (length DEFAULT_COLORS) with 10; apply Nat.mod_upper_bound; lia).
  apply lookup_lt_is_Some in Hlt as [c Hc]. by rewrite Hc.
Qed.

(** X7. A color released is not kept for the user: the next
    [assignUserColor] deals the palette entry at the running index, which
    [releaseUserColor] does not move back. *)
Theorem release_then_assign_deals_next rm uid :
  let rm' := releaseUserColor rm uid in
  getUserColor rm' uid = None
  ∧ colorIndex rm' = colorIndex rm
  ∧ (∀ uid', uid' ≠ uid → getUserColor rm' uid' = getUserColor rm uid')
  ∧ DEFAULT_COLORS !! (colorIndex rm mod 10) = Some (assignUserColor rm' uid).1
  ∧ colorIndex (assignUserColor rm' uid).2 = S (colorIndex rm).
Proof.
  intros rm'.
  assert (getUserColor rm' uid = None) as Hnone
    by (unfold getUserColor; simpl; apply lookup_delete_eq).
  destruct (assignUserColor_cases rm' uid) as (_ & _ & _ & Hnew & _).
  destruct (Hnew Hnone) as [Hcol Hidx].
  repeat split; try done.
  intros uid' Hne. unfold getUserColor. simpl. by rewrite lookup_delete_ne.
Qed.

(** X8. [createRoom] files the room under its id, named as asked or
    "Room " followed by the id when no name or an empty one is given.  A
    room already there is replaced where it stands, so the registry holds
    one room per id; the other rooms are untouched, and [deleteRoom]
    makes the id unknown again. *)
Theorem createRoom_registers rm roomId roomName now :
  let rm' := createRoom rm roomId roomName now in
  getRoom rm' roomId
    = Some {| room_id := roomId;
              room_name := match roomName with
                           | Some n => if decide (n = "") then "Room " +:+ roomId else n
                           | None => "Room " +:+ roomId
                           end;
              maxUsers := None; createdAt := now |}
  ∧ roomExists rm' roomId = true
  ∧ (∀ roomId', roomId' ≠ roomId → getRoom rm' roomId' = getRoom rm roomId')
  ∧ (rooms rm').*1
      = (if roomExists rm roomId then (rooms rm).*1 else (rooms rm).*1 ++ [roomId])
  ∧ (Map_wf (rooms rm) →
       Map_wf (rooms rm') ∧ roomExists (deleteRoom rm' roomId) roomId = false).
Proof.
  intros rm'. subst rm'. unfold getRoom, roomExists, createRoom, deleteRoom, Map_has.
  simpl. rewrite Map_get_set_eq. repeat split.
  - do 2 f_equal. destruct roomName as [n|]; simpl; [|done].
    unfold truthy_str. destruct (String.eqb_spec n ""), (decide (n = "")); done.
  - intros roomId' Hne. by apply Map_get_set_ne.
  - apply Map_set_keys_order.
  - by apply Map_set_wf.
  - rewrite Map_get_delete_eq; [done|]. by apply Map_set_wf.
Qed.

End Registry.

(* ===================================================================== *)
(** ** More of the relay                                                  *)
(* ===================================================================== *)

Section RelayMore.
Import JS DrawingState Rooms Server Observe.

Implicit Types (m : Manager) (st : State) (c : Conn) (env : Env)
  (op : DrawingOperation).

(** *** join-room *)

Lemma sanitize_fixed (s : string) :
  Forall (λ ch, room_char ch = true) (list_ascii_of_string s) → sanitize s = s.
Proof.
  induction s as [|ch s IH]; simpl; [done|].
  intros [Hch Hs]%Forall_cons. rewrite Hch. by rewrite IH.
Qed.

Lemma room_id_ok_accepted (s : string) :
  room_id_ok (JStr s) →
  negb (truthy (JStr s)) || (50 <? String.length s) = false
  ∧ negb (String.eqb (sanitize s) s) = false.
Proof.
  intros (s' & [= <-] & Hne & Hlen & Hall). split.
  - simpl. destruct (String.eqb_spec s ""); [done|]. simpl.
    apply Nat.ltb_ge. lia.
  - rewrite sanitize_fixed; [by rewrite String.eqb_refl|].
    eapply Forall_impl; [exact Hall|]. intros ch Hch. by rewrite room_char_alphabet.
Qed.

Lemma room_id_not_ok_rejected st c env roomId newName :
  ¬ room_id_ok roomId →
  ∃ msg, on_join_room st c env (JoinObject roomId newName)
           = (st, c, [error_to_sender msg]).
Proof.
  intros Hbad. destruct roomId as [| | | |s]; simpl; try by eexists.
  destruct (String.eqb_spec s "") as [->|Hne]; simpl; [by eexists|].
  destruct (Nat.ltb_spec 50 (String.length s)) as [Hlong|Hlen]; [by eexists|].
  destruct (String.eqb_spec (sanitize s) s) as [Heq|Hneq]; simpl; [|by eexists].
  destruct Hbad. exists s. repeat split; try done.
  apply Forall_forall. intros ch Hin.
  destruct (in_alphabet ch) eqn:E; [done|].
  rewrite <- room_char_alphabet in E.
  apply list_elem_of_In in Hin.
  pose proof (sanitize_changes s ch Hin E) as Hch.
  rewrite Heq, String.eqb_refl in Hch. done.
Qed.

(** X9. The [join-room] handler lets a room id through exactly when it
    is a string of 1 to 50 characters of [A-Za-z0-9_-]: then the
    connection is in that room afterwards and no error is emitted;
    otherwise the answer is a single error to the sender and nothing
    changes. *)
Theorem join_room_accepts_exactly st c env roomId newName :
  let res := on_join_room st c env (JoinObject roomId newName) in
  (room_id_ok roomId →
     roomId = JStr (currentRoom res.1.2)
     ∧ currentRoom res.1.2 ∈ socketRooms res.1.2
     ∧ ∀ e, e ∈ res.2 → event e ≠ "error")
  ∧ (¬ room_id_ok roomId →
     ∃ msg, res = (st, c, [error_to_sender msg])).
Proof.
  intros res. subst res. split; [|apply room_id_not_ok_rejected].
  intros Hok. pose proof Hok as (s & -> & _).
  destruct (room_id_ok_accepted s Hok) as [H1 H2].
  unfold on_join_room. rewrite H1, H2.
  destruct (assignUserColor _ _) as [col rm2].
  destruct (getStateSnapshot _ _) as [[ops us] m2]. simpl.
  split; [done|]. split; [set_solver|].
  intros e. rewrite !elem_of_cons, elem_of_nil.
  intros [->|[->|[->|[]]]]; simpl; discriminate.
Qed.

Lemma getStateSnapshot_fst m r :
  (getStateSnapshot m r).1 = (log_of m r, Map_values (users_of m r)).
Proof.
  unfold getStateSnapshot, log_of, users_of.
  pose proof (getRoomState_fst m r) as Hfst.
  destruct (getRoomState m r) as [state m1]. simpl in *. by subst.
Qed.

Lemma room_of_getStateSnapshot m r r' :
  room_of (getStateSnapshot m r).2 r' = room_of m r'.
Proof.
  unfold getStateSnapshot.
  pose proof (getRoomState_snd_lookup m r r') as Hsnd.
  by destruct (getRoomState m r) as [state m1].
Qed.

Lemma createRoom_userColors rm rid name now :
  userColors (createRoom rm rid name now) = userColors rm
  ∧ colorIndex (createRoom rm rid name now) = colorIndex rm.
Proof. done. Qed.

(** X10. A [join-room] with a good room id moves the connection to that
    room and files the user there, under the name asked for when one is
    given, with the color the room manager holds for the user.  The
    sender gets the log of the room and its users, itself included; the
    room left hears [user-left] and the room joined [user-joined].  No
    log changes, and the users of every other room, the room left
    included, stay as they were. *)
Theorem join_room_switches st c env s newName :
  room_id_ok (JStr s) →
  let res := on_join_room st c env (JoinObject (JStr s) newName) in
  let uname := match newName with
               | Some n => if decide (n = "") then userName c else n
               | None => userName c
               end in
  ∃ ucolor now,
    res.1.2 = {| currentRoom := s; conn_userId := conn_userId c; userName := uname;
                 userColor := userColor c;
                 socketRooms := (socketRooms c ∖ {[currentRoom c]}) ∪ {[s]} |}
    ∧ Map_get (users_of (drawingState res.1.1) s) (conn_userId c)
        = Some {| user_id := conn_userId c; user_name := uname; user_color := ucolor;
                  cursorPosition := None; lastSeen := now |}
    ∧ getUserColor (roomManager res.1.1) (conn_userId c) = Some ucolor
    ∧ roomExists (roomManager res.1.1) s = true
    ∧ (∀ r, r ≠ s → users_of (drawingState res.1.1) r = users_of (drawingState st) r)
    ∧ (∀ r, log_of (drawingState res.1.1) r = log_of (drawingState st) r)
    ∧ res.2
        = [ {| target := ToOthersIn (currentRoom c); event := "user-left";
               payload := PUserLeft (conn_userId c) |};
            {| target := ToSender; event := "room-state";
               payload := PRoomState (log_of (drawingState st) s)
                            (Map_values (users_of (drawingState res.1.1) s)) |};
            {| target := ToOthersIn s; event := "user-joined";
               payload := PUserJoined (conn_userId c) uname ucolor |} ].
Proof.
  intros Hok res uname. subst res.
  destruct (room_id_ok_accepted s Hok) as [H1 H2].
  unfold on_join_room. rewrite H1, H2.
  assert ((if truthy_ostr newName then default "" newName else userName c) = uname)
    as ->.
  { subst uname. destruct newName as [n|]; simpl; [|done].
    unfold truthy_str. by destruct (String.eqb_spec n ""), (decide (n = "")). }
  set (rm1 := if roomExists (roomManager st) s then roomManager st
              else createRoom (roomManager st) s None (Date_now env 0)).
  assert (roomExists rm1 s = true) as Hex.
  { subst rm1. destruct (roomExists (roomManager st) s) eqn:E; [done|].
    unfold roomExists, createRoom, Map_has. simpl. by rewrite Map_get_set_eq. }
  pose proof (assignUserColor_cases rm1 (conn_userId c)) as (Hcol & _ & _ & _ & _).
  assert (rooms (assignUserColor rm1 (conn_userId c)).2 = rooms rm1) as Hrooms.
  { unfold assignUserColor. by destruct (userColors rm1 !! conn_userId c). }
  destruct (assignUserColor rm1 (conn_userId c)) as [ucolor rm2]. simpl in Hcol, Hrooms.
  set (now := Date_now env (if roomExists (roomManager st) s then 0 else 1)).
  set (m1 := addUser (drawingState st) s (conn_userId c) uname ucolor now).
  pose proof (getStateSnapshot_fst m1 s) as Hfst.
  pose proof (room_of_getStateSnapshot m1 s) as Hsnd.
  destruct (getStateSnapshot m1 s) as [[ops us] m2]. simpl in *.
  injection Hfst as -> ->.
  destruct (addUser_room (drawingState st) s (conn_userId c) uname ucolor now)
    as [Hroom Hother].
  exists ucolor, now. repeat split.
  - unfold users_of. rewrite Hsnd. fold m1 in Hroom. rewrite Hroom. simpl.
    apply Map_get_set_eq.
  - exact Hcol.
  - unfold roomExists in *. by rewrite Hrooms.
  - intros r Hr. unfold users_of. rewrite Hsnd. by rewrite Hother.
  - intros r. unfold log_of at 1. rewrite Hsnd. fold (log_of m1 r).
    apply log_of_addUser.
  - unfold users_of at 2. rewrite Hsnd. fold (users_of m1 s).
    subst m1. by rewrite log_of_addUser.
Qed.

(** X11. A new connection is put in the room "default" under the name
    "User " followed by the first six characters of its socket id.  The
    room state it is sent is taken before the user is filed, so it shows
    the log and the users as they were, without the newcomer, whereas
    the others in the room are told of it; no log changes. *)
Theorem connection_snapshot_precedes_registration st sid env :
  let res := on_connection st sid env in
  let uname := "User " +:+ String.substring 0 6 sid in
  ∃ ucolor now,
    res.2 = [ {| target := ToSender; event := "room-state";
                 payload := PRoomState (log_of (drawingState st) "default")
                              (Map_values (users_of (drawingState st) "default")) |};
              {| target := ToOthersIn "default"; event := "user-joined";
                 payload := PUserJoined sid uname ucolor |} ]
    ∧ Map_get (users_of (drawingState res.1.1) "default") sid
        = Some {| user_id := sid; user_name := uname; user_color := ucolor;
                  cursorPosition := None; lastSeen := now |}
    ∧ getUserColor (roomManager res.1.1) sid = Some ucolor
    ∧ roomExists (roomManager res.1.1) "default" = true
    ∧ currentRoom res.1.2 = "default" ∧ conn_userId res.1.2 = sid
    ∧ userColor res.1.2 = ucolor
    ∧ (∀ r, log_of (drawingState res.1.1) r = log_of (drawingState st) r)
    ∧ (∀ r, r ≠ "default" →
         users_of (drawingState res.1.1) r = users_of (drawingState st) r).
Proof.
  intros res uname. subst res. unfold on_connection.
  change DEFAULT_ROOM with "default".
  set (rm1 := if roomExists (roomManager st) "default" then roomManager st
              else createRoom (roomManager st) "default" None (Date_now env 0)).
  assert (roomExists rm1 "default" = true) as Hex.
  { subst rm1. destruct (roomExists (roomManager st) "default") eqn:E; [done|].
    unfold roomExists, createRoom, Map_has. simpl. by rewrite Map_get_set_eq. }
  pose proof (assignUserColor_cases rm1 sid) as (Hcol & _ & _ & _ & _).
  assert (rooms (assignUserColor rm1 sid).2 = rooms rm1) as Hrooms.
  { unfold assignUserColor. by destruct (userColors rm1 !! sid). }
  destruct (assignUserColor rm1 sid) as [ucolor rm2]. simpl in Hcol, Hrooms.
  pose proof (getStateSnapshot_fst (drawingState st) "default") as Hfst.
  pose proof (room_of_getStateSnapshot (drawingState st) "default") as Hsnd.
  destruct (getStateSnapshot (drawingState st) "default") as [[ops us] m1].
  simpl in Hfst, Hsnd. injection Hfst as -> ->.
  set (now := Date_now env (if roomExists (roomManager st) "default" then 0 else 1)).
  fold uname.
  destruct (addUser_room m1 "default" sid uname ucolor now) as [Hroom Hother].
  exists ucolor, now. cbn [fst snd drawingState roomManager currentRoom conn_userId userColor].
  split; [done|]. split.
  { unfold users_of at 1. rewrite Hroom. simpl. apply Map_get_set_eq. }
  split; [exact Hcol|]. split; [unfold roomExists in *; by rewrite Hrooms|].
  split; [done|]. split; [done|]. split; [done|]. split.
  - intros r. rewrite log_of_addUser. unfold log_of. by rewrite Hsnd.
  - intros r Hr. unfold users_of. by rewrite Hother, Hsnd.
Qed.

(** *** draw-progress *)

Lemma log_of_insert m r (s : RoomState) : log_of (<[r := s]> m) r = operations s.
Proof. unfold log_of. by rewrite room_of_insert. Qed.

Lemma users_of_insert m r (s : RoomState) : users_of (<[r := s]> m) r = users s.
Proof. unfold users_of. by rewrite room_of_insert. Qed.

(** The two ways a [draw-progress] ends: dropped, with every room as it
    was, or appended to the sender's own stroke and relayed. *)
Lemma on_draw_progress_cases st c data :
  let res := on_draw_progress st c data in
  (res.2 = [] ∧ res.1.2 = c ∧ roomManager res.1.1 = roomManager st
   ∧ ∀ r, room_of (drawingState res.1.1) r = room_of (drawingState st) r)
  ∨ (∃ oid px py i op p,
       data = Some {| dp_operationId := Some oid;
                      dp_point := Some {| raw_x := JNum px; raw_y := JNum py |} |}
       ∧ oid ≠ ""
       ∧ find_operation (log_of (drawingState st) (currentRoom c)) oid = Some (i, op)
       ∧ userId op = conn_userId c
       ∧ path op = Some p
       ∧ (Z.of_nat (length p) < 10000)%Z
       ∧ res = (with_drawingState st
                  (<[currentRoom c :=
                       set_operations (room_of (drawingState st) (currentRoom c))
                         (<[i := set_path op (p ++ [clamped (px, py)])]>
                            (log_of (drawingState st) (currentRoom c)))]>
                     (drawingState st)),
                c,
                [ {| target := ToOthersIn (currentRoom c); event := "draw-progress";
                     payload := PDrawProgress oid (clamped (px, py)) |} ])).
Proof.
  intros res. subst res. unfold on_draw_progress.
  destruct data as [[oid pt]|]; [|by left].
  cbn [dp_operationId dp_point].
  destruct oid as [oid|]; [|by left]. simpl truthy_ostr.
  destruct (truthy_str oid) eqn:Hoid; [|by left]. simpl negb. cbn iota.
  destruct pt as [[rx ry]|]; [|by left].
  destruct rx as [| | |px|]; try by left.
  destruct ry as [| | |py|]; try by left.
  pose proof (getRoomState_fst (drawingState st) (currentRoom c)) as Hfst.
  pose proof (getRoomState_snd_lookup (drawingState st) (currentRoom c)) as Hsnd.
  destruct (getRoomState (drawingState st) (currentRoom c)) as [state m1] eqn:Eg.
  simpl in Hfst, Hsnd. subst state. fold (log_of (drawingState st) (currentRoom c)).
  cbn [default].
  destruct (find_operation _ _) as [[i op]|] eqn:Ef; [|by left].
  destruct (String.eqb_spec (userId op) (conn_userId c)) as [Hown|]; [|by left].
  destruct (path op) as [p|] eqn:Ep; [|by left].
  destruct (Z.ltb_spec (Z.of_nat (length p)) 10000) as [Hlt|]; [|by left].
  right. exists oid, px, py, i, op, p.
  assert (m1 = drawingState st) as ->.
  { apply list_find_Some in Ef as (Hi & _ & _).
    assert (drawingState st !! currentRoom c = Some (room_of (drawingState st) (currentRoom c)))
      as Hin.
    { destruct (log_of (drawingState st) (currentRoom c)) as [|o l] eqn:El;
        [by rewrite lookup_nil in Hi|]. eapply log_nonempty_room, El. }
    rewrite (getRoomState_present _ _ _ Hin) in Eg. by injection Eg. }
  repeat split; try done.
  unfold truthy_str in Hoid. by destruct (String.eqb_spec oid "").
Qed.

Lemma on_draw_progress_own st c oid px py i op p :
  oid ≠ "" →
  find_operation (log_of (drawingState st) (currentRoom c)) oid = Some (i, op) →
  userId op = conn_userId c →
  path op = Some p →
  (Z.of_nat (length p) < 10000)%Z →
  on_draw_progress st c
    (Some {| dp_operationId := Some oid;
             dp_point := Some {| raw_x := JNum px; raw_y := JNum py |} |})
  = (with_drawingState st
       (<[currentRoom c :=
            set_operations (room_of (drawingState st) (currentRoom c))
              (<[i := set_path op (p ++ [clamped (px, py)])]>
                 (log_of (drawingState st) (currentRoom c)))]>
          (drawingState st)),
     c,
     [ {| target := ToOthersIn (currentRoom c); event := "draw-progress";
          payload := PDrawProgress oid (clamped (px, py)) |} ]).
Proof.
  intros Hoid Hfind Hown Hpath Hlen.
  destruct (on_draw_progress_cases st c
              (Some {| dp_operationId := Some oid;
                       dp_point := Some {| raw_x := JNum px; raw_y := JNum py |} |}))
    as [(Hnil & _ & _ & Hview)|(oid' & px' & py' & i' & op' & p' & Hd & _ & Hf & _ & Hp & _ & Hres)].
  - exfalso. revert Hnil. unfold on_draw_progress. cbn [dp_operationId dp_point].
    simpl truthy_ostr. rewrite (truthy_str_true _ Hoid). simpl negb. cbn iota.
    pose proof (getRoomState_fst (drawingState st) (currentRoom c)) as Hfst.
    destruct (getRoomState _ _) as [state m1]. simpl in Hfst. subst state.
    fold (log_of (drawingState st) (currentRoom c)).
    change (default "" (Some oid)) with oid.
    rewrite Hfind, Hown, String.eqb_refl, Hpath.
    destruct (Z.ltb_spec (Z.of_nat (length p)) 10000); [discriminate|lia].
  - injection Hd as <- <- <-. rewrite Hfind in Hf. injection Hf as <- <-.
    rewrite Hpath in Hp. by injection Hp as <-.
Qed.

(** X12. A [draw-progress] on an operation the sender owns, found under
    its id with fewer than 10000 points, appends the point received,
    clamped at 0, to the end of that operation's path and relays the same
    point to the others in the room; the log keeps its length and every
    other operation. *)
Theorem draw_progress_appends_to_own_stroke st c oid px py i op p :
  oid ≠ "" →
  find_operation (log_of (drawingState st) (currentRoom c)) oid = Some (i, op) →
  userId op = conn_userId c →
  path op = Some p →
  (Z.of_nat (length p) < 10000)%Z →
  let res := on_draw_progress st c
               (Some {| dp_operationId := Some oid;
                        dp_point := Some {| raw_x := JNum px; raw_y := JNum py |} |}) in
  let log := log_of (drawingState st) (currentRoom c) in
  let log' := log_of (drawingState res.1.1) (currentRoom c) in
  log' !! i = Some (set_path op (p ++ [clamped (px, py)]))
  ∧ (∀ j, j ≠ i → log' !! j = log !! j)
  ∧ length log' = length log
  ∧ (0 <= x (clamped (px, py)))%Q ∧ (0 <= y (clamped (px, py)))%Q
  ∧ res.2 = [ {| target := ToOthersIn (currentRoom c); event := "draw-progress";
                payload := PDrawProgress oid (clamped (px, py)) |} ]
  ∧ (∀ r, r ≠ currentRoom c →
       room_of (drawingState res.1.1) r = room_of (drawingState st) r)
  ∧ users_of (drawingState res.1.1) (currentRoom c)
      = users_of (drawingState st) (currentRoom c).
Proof.
  intros Hoid Hfind Hown Hpath Hlen res log log'. subst res log log'.
  rewrite (on_draw_progress_own st c oid px py i op p) by done.
  cbn [fst snd drawingState with_drawingState].
  apply list_find_Some in Hfind as (Hi & _ & _).
  rewrite !log_of_insert, users_of_insert. cbn [operations users set_operations].
  repeat split.
  - apply list_lookup_insert_eq. by eapply lookup_lt_Some.
  - intros j Hj. by apply list_lookup_insert_ne.
  - apply length_insert.
  - apply clamp0_nonneg.
  - apply clamp0_nonneg.
  - intros r Hr. by rewrite room_of_insert_ne.
Qed.

(** X13. A path that has reached 10000 points takes no more: the
    [draw-progress] of its owner changes no room and is relayed to
    nobody. *)
Theorem draw_progress_stops_at_cap st c oid pt i op p :
  find_operation (log_of (drawingState st) (currentRoom c)) oid = Some (i, op) →
  path op = Some p →
  (10000 <= Z.of_nat (length p))%Z →
  let res := on_draw_progress st c
               (Some {| dp_operationId := Some oid; dp_point := pt |}) in
  res.2 = [] ∧ res.1.2 = c
  ∧ ∀ r, room_of (drawingState res.1.1) r = room_of (drawingState st) r.
Proof.
  intros Hfind Hpath Hlen res. subst res.
  destruct (on_draw_progress_cases st c
              (Some {| dp_operationId := Some oid; dp_point := pt |}))
    as [(Hnil & Hc & _ & Hview)|(oid' & px' & py' & i' & op' & p' & Hd & _ & Hf & _ & Hp & Hlt & _)].
  - by repeat split.
  - injection Hd as <- _. rewrite Hfind in Hf. injection Hf as <- <-.
    rewrite Hpath in Hp. injection Hp as <-. lia.
Qed.

(** *** A stroke from start to snapshot *)

Lemma set_path_set_path op p1 p2 : set_path (set_path op p1) p2 = set_path op p2.
Proof. done. Qed.

Lemma find_operation_last pre op oid :
  Forall (λ o, id o ≠ oid) pre → id op = oid →
  find_operation (pre ++ [op]) oid = Some (length pre, op).
Proof.
  intros Hpre Hid. unfold find_operation.
  apply list_find_Some. split; [by apply list_lookup_middle|]. split; [done|].
  intros j o Hj Hlt. rewrite lookup_app_l in Hj by done.
  eapply (proj1 (Forall_forall _ _) Hpre). eapply list_elem_of_lookup_2, Hj.
Qed.

Lemma progress_all_appends oid c pts : ∀ st pre op p,
  oid ≠ "" →
  log_of (drawingState st) (currentRoom c) = pre ++ [op] →
  Forall (λ o, id o ≠ oid) pre → id op = oid →
  userId op = conn_userId c →
  path op = Some p →
  (Z.of_nat (length p + length pts) <= 10000)%Z →
  log_of (drawingState (progress_all st c (progress_of oid pts))) (currentRoom c)
    = pre ++ [set_path op (p ++ (clamped <$> pts))].
Proof.
  induction pts as [|[px py] pts IH]; intros st pre op p Hoid Hlog Hpre Hid Hown Hpath Hlen.
  - simpl. rewrite app_nil_r, Hlog. do 2 f_equal.
    destruct op. simpl in *. by subst.
  - unfold progress_all, progress_of in *. rewrite fmap_cons. cbn [foldl].
    cbn [fst snd].
    rewrite (on_draw_progress_own st c oid px py (length pre) op p); try done.
    + cbn [fst].
      rewrite (IH _ pre (set_path op (p ++ [clamped (px, py)])) (p ++ [clamped (px, py)]));
        try done.
      * rewrite set_path_set_path. rewrite <- app_assoc. done.
      * cbn [drawingState with_drawingState]. rewrite log_of_insert.
        cbn [operations set_operations]. rewrite Hlog.
        rewrite insert_app_r_alt by done. by rewrite Nat.sub_diag.
      * rewrite length_app. simpl in *. lia.
    + rewrite Hlog. by apply find_operation_last.
    + simpl in Hlen. lia.
Qed.

Lemma kept_snoc snapshot op :
  id op ≠ "" → kept (snapshot ++ [Some op]) = kept snapshot ++ [op].
Proof.
  intros Hid. unfold kept. rewrite omap_app. simpl.
  by rewrite (truthy_str_true _ Hid).
Qed.

(** X14. A stroke started under an id that no operation of the room
    has, and continued by fewer than 10000 [draw-progress] messages of
    the same connection, stands at the tail of the log with the sender as
    its author and all its points, clamped at 0, in the order they were
    sent.  The snapshot of the room ends with it, and so does the list of
    a client that loads that snapshot. *)
Theorem stroke_reaches_late_joiner S2N st c env oid col w (p0 : Q * Q) pts cm :
  oid ≠ "" →
  Forall (λ o, id o ≠ oid) (log_of (drawingState st) (currentRoom c)) →
  (Z.of_nat (length pts) < 10000)%Z →
  let start := Some {| ds_point := Some {| raw_x := JNum p0.1; raw_y := JNum p0.2 |};
                       ds_color := col; ds_lineWidth := w;
                       ds_operationId := Some oid |} in
  let st1 := (on_draw_start S2N st c env start).1.1 in
  let st2 := progress_all st1 c (progress_of oid pts) in
  let snapshot := (getStateSnapshot (drawingState st2) (currentRoom c)).1.1 in
  ∃ op,
    last snapshot = Some op
    ∧ id op = oid ∧ userId op = conn_userId c
    ∧ path op = Some (clamped <$> p0 :: pts)
    ∧ last (Client.operations (Client.loadOperations cm (Some <$> snapshot)).1) = Some op.
Proof.
  intros Hoid Hfresh Hlen start st1 st2 snapshot.
  set (op0 := draw_start_operation S2N c env
                {| ds_point := Some {| raw_x := JNum p0.1; raw_y := JNum p0.2 |};
                   ds_color := col; ds_lineWidth := w; ds_operationId := Some oid |}
                p0.1 p0.2).
  assert (st1 = with_drawingState st (addOperation (drawingState st) (currentRoom c) op0))
    as Hst1 by done.
  assert (id op0 = oid) as Hid0.
  { subst op0. unfold draw_start_operation. simpl. by rewrite (truthy_str_true _ Hoid). }
  assert (∃ pre, log_of (drawingState st1) (currentRoom c) = pre ++ [op0]
                 ∧ Forall (λ o, id o ≠ oid) pre) as (pre & Hlog1 & Hpre).
  { rewrite Hst1. cbn [drawingState with_drawingState]. rewrite log_of_addOperation.
    case_decide as Hcap.
    - destruct (log_of (drawingState st) (currentRoom c)) as [|o l] eqn:El.
      + simpl in Hcap. unfold MAX_OPERATIONS in Hcap. lia.
      + exists l. simpl. rewrite drop_0. split; [done|].
        by apply Forall_cons in Hfresh as [_ ?].
    - by eexists. }
  pose proof (progress_all_appends oid c pts st1 pre op0 [clamped p0] Hoid Hlog1 Hpre Hid0)
    as Hlog2.
  specialize (Hlog2 eq_refl eq_refl). simpl length in Hlog2.
  specialize (Hlog2 ltac:(lia)). fold st2 in Hlog2.
  assert (snapshot = pre ++ [set_path op0 ([clamped p0] ++ (clamped <$> pts))]) as Hsnap.
  { subst snapshot. by rewrite getStateSnapshot_fst. }
  exists (set_path op0 ([clamped p0] ++ (clamped <$> pts))).
  rewrite Hsnap. split; [apply last_snoc|]. repeat split; try done.
  rewrite loadOperations_closed_form. cbn [Client.operations].
  rewrite fmap_app. cbn [fmap list_fmap].
  rewrite kept_snoc; [apply last_snoc|].
  change (id (set_path op0 ([clamped p0] ++ (clamped <$> pts)))) with (id op0).
  by rewrite Hid0.
Qed.

(** *** Every message *)

(** Opens the handler of a message down to the branch it takes. *)
Ltac open_handler :=
  unfold handle, on_join_room, on_draw_start, on_draw_progress, on_draw_end,
    on_erase, on_shape, on_text, on_image, stamp_and_store, on_ping,
    on_clear_canvas, on_cursor_move, on_undo, on_set_name, on_disconnect;
  repeat case_match; subst.

(** X15. Whenever a handler emits an error event, that event is all it
    emits, it goes to the sender alone, and the two managers and the
    connection are as before the message. *)
Theorem error_event_changes_nothing S2N st c env msg e :
  e ∈ (handle S2N st c env msg).2 →
  event e = "error" →
  handle S2N st c env msg = (st, c, [e]) ∧ target e = ToSender.
Proof.
  destruct msg; open_handler; cbn [fst snd];
    intros Hin Hev;
    repeat (apply elem_of_cons in Hin as [->|Hin]);
    try (by apply elem_of_nil in Hin);
    try discriminate Hev; by split.
Qed.

(** X16. What comes back to the socket that sent a message is an error,
    the room state after a join, a pong, or the [clear-canvas] and [undo]
    events that go to the whole room: never the sender's own stroke,
    shape, text, image, cursor or name events. *)
Theorem sender_gets_no_echo S2N st c env msg e :
  e ∈ (handle S2N st c env msg).2 →
  reaches_sender e c = true →
  event e ∈ ["error"; "room-state"; "pong"; "clear-canvas"; "undo"].
Proof.
  destruct msg; open_handler; cbn [fst snd];
    intros Hin Hreach;
    repeat (apply elem_of_cons in Hin as [->|Hin]);
    try (by apply elem_of_nil in Hin);
    try discriminate Hreach; cbn [event error_to_sender]; set_solver.
Qed.

(** *** undo *)

(** X17. When the sender has an operation in the room's log, the [undo]
    handler removes the one closest to the tail, keeps every other
    operation in place, and tells everyone in the room, the sender
    included, the id of what went and the sender as its author. *)
Theorem undo_removes_and_broadcasts st c pre op post :
  conn_userId c ≠ "" →
  log_of (drawingState st) (currentRoom c) = pre ++ op :: post →
  userId op = conn_userId c →
  Forall (λ o, userId o ≠ conn_userId c) post →
  let res := on_undo st c in
  log_of (drawingState res.1.1) (currentRoom c) = pre ++ post
  ∧ users_of (drawingState res.1.1) (currentRoom c)
      = users_of (drawingState st) (currentRoom c)
  ∧ (∀ r, r ≠ currentRoom c →
       room_of (drawingState res.1.1) r = room_of (drawingState st) r)
  ∧ res.1.2 = c
  ∧ res.2 = [ {| target := ToEveryoneIn (currentRoom c); event := "undo";
                payload := PUndo (id op) (conn_userId c) |} ]
  ∧ (in_current_room c → Forall (λ e, reaches_sender e c = true) res.2).
Proof.
  intros Hid Hlog Hown Hpost res. subst res. unfold on_undo.
  rewrite (undoOperation_scoped _ _ _ pre op post) by (by try apply truthy_str_true).
  cbn [fst snd drawingState with_drawingState].
  rewrite log_of_insert, users_of_insert. cbn [operations users set_operations].
  rewrite Hown. repeat split; try done.
  - intros r Hr. by rewrite room_of_insert_ne.
  - intros Hin. constructor; [|constructor].
    unfold reaches_sender. simpl. by apply bool_decide_eq_true.
Qed.

(** *** Where the operations of a log come from *)

Lemma log_of_addOperation_elem m r o r' op :
  op ∈ log_of (addOperation m r o) r' →
  op ∈ log_of m r' ∨ (r' = r ∧ op = o).
Proof.
  destruct (decide (r = r')) as [<-|Hne].
  - rewrite log_of_addOperation. intros Hin.
    assert (op ∈ log_of m r ++ [o]) as Hin'.
    { case_decide; [|done]. by eapply subseteq_drop. }
    apply elem_of_app in Hin' as [?|Hin']; [by left|].
    apply list_elem_of_singleton in Hin' as ->. by right.
  - unfold log_of. rewrite room_of_addOperation_ne by done. by left.
Qed.

Lemma list_insert_elem {A} (l : list A) i (a b : A) :
  b ∈ <[i := a]> l → b = a ∨ b ∈ l.
Proof.
  intros [j Hj]%list_elem_of_lookup.
  apply list_lookup_insert_Some in Hj as [(-> & <- & _)|[_ Hj]]; [by left|].
  right. eapply list_elem_of_lookup_2, Hj.
Qed.

Lemma truthy_str_nonempty (s : string) : truthy_str s = true → s ≠ "".
Proof. unfold truthy_str. by destruct (String.eqb_spec s ""). Qed.

(** An operation found in a log after a message was in that log before,
    or is one the message wrote: it stands in the sender's room under
    the sender's id, and its operation id is that of the operation it
    replaces, a fresh server id, or a non-empty id of the client. *)
Lemma handle_log_elem S2N st c env msg r op :
  op ∈ log_of (drawingState (handle S2N st c env msg).1.1) r →
  op ∈ log_of (drawingState st) r
  ∨ (r = currentRoom c ∧ userId op = conn_userId c
     ∧ ((∃ old, old ∈ log_of (drawingState st) r ∧ id old = id op)
        ∨ id op = uuidv4 env ∨ id op ≠ "")).
Proof.
  assert (∀ o, userId o = conn_userId c →
               id o = uuidv4 env ∨ id o ≠ "" →
               op ∈ log_of (addOperation (drawingState st) (currentRoom c) o) r →
               op ∈ log_of (drawingState st) r
               ∨ (r = currentRoom c ∧ userId op = conn_userId c
                  ∧ ((∃ old, old ∈ log_of (drawingState st) r ∧ id old = id op)
                     ∨ id op = uuidv4 env ∨ id op ≠ ""))) as Hadd.
  { intros o Ho Hido [?|[-> ->]]%log_of_addOperation_elem; [by left|right].
    split; [done|]. split; [done|]. by right. }
  assert (∀ s : string, (if truthy_str s then s else uuidv4 env) = uuidv4 env
                        ∨ (if truthy_str s then s else uuidv4 env) ≠ "") as Hpick.
  { intros s. destruct (truthy_str s) eqn:E; [right|by left].
    by apply truthy_str_nonempty. }
  destruct msg; simpl.
  - (* join-room *)
    destruct data as [v|[| | | |s] nm]; simpl; try by left.
    destruct (_ || _); [by left|]. destruct (negb _); [by left|].
    destruct (assignUserColor _ _) as [col rm2].
    match goal with
    | |- context [getStateSnapshot ?m ?rid] =>
        pose proof (log_of_getStateSnapshot m rid r) as Hs;
        destruct (getStateSnapshot m rid) as [[ops us] m2]
    end.
    simpl in *. rewrite Hs, log_of_addUser. by left.
  - (* draw-start *)
    destruct data as [[[[[| | |px|] [| | |py|]]|] col w oid]|]; simpl; try by left.
    apply Hadd; [done|]. unfold draw_start_operation. cbn [id ds_operationId].
    destruct oid as [oid|]; simpl; [apply Hpick|by left].
  - (* draw-progress *)
    destruct (on_draw_progress_cases st c data)
      as [(_ & _ & _ & Hview)|(oid & px & py & i & o & p & _ & _ & Hf & Hown & _ & _ & ->)].
    + unfold log_of at 1. rewrite Hview. by left.
    + cbn [fst snd drawingState with_drawingState].
      destruct (decide (r = currentRoom c)) as [->|Hne].
      * rewrite log_of_insert. cbn [operations set_operations].
        intros [->|Hin]%list_insert_elem; [right|by left].
        split; [done|]. split; [done|]. left. exists o. split; [|done].
        apply list_find_Some in Hf as (Hi & _). eapply list_elem_of_lookup_2, Hi.
      * unfold log_of at 1. rewrite room_of_insert_ne by done. by left.
  - by left.
  - (* erase *)
    apply Hadd; [done|by left].
  - (* shape *)
    destruct data as [o|]; simpl; [|by left].
    destruct (startPoint o), (endPoint o); simpl; try by left.
    apply Hadd; [done|apply Hpick].
  - (* text *)
    destruct data as [o|]; simpl; [|by left].
    destruct (text o) as [t|], (startPoint o); simpl; try by left.
    destruct (truthy_str t); [|by left]. apply Hadd; [done|apply Hpick].
  - (* image *)
    destruct data as [o|]; simpl; [|by left].
    destruct (imageData o) as [t|], (startPoint o); simpl; try by left.
    destruct (truthy_str t); [|by left]. apply Hadd; [done|apply Hpick].
  - by left.
  - (* clear-canvas *)
    destruct (clear_canvas_rooms st c env) as [Hroom Hother].
    destruct (decide (r = currentRoom c)) as [->|Hne].
    + unfold log_of at 1. rewrite Hroom. cbn [operations].
      intros ->%list_elem_of_singleton. right.
      split; [done|]. split; [done|]. right. by left.
    + unfold log_of at 1. rewrite Hother by done. by left.
  - (* cursor-move *)
    rewrite log_of_updateUserCursor. by left.
  - (* undo *)
    unfold on_undo.
    pose proof (getRoomState_snd_lookup (drawingState st) (currentRoom c) r) as Hsnd.
    unfold undoOperation.
    pose proof (getRoomState_fst (drawingState st) (currentRoom c)) as Hfst.
    destruct (getRoomState _ _) as [state m1]. simpl in Hfst, Hsnd. subst state.
    assert (op ∈ log_of m1 r → op ∈ log_of (drawingState st) r) as Hsame
      by (unfold log_of; by rewrite Hsnd).
    destruct (length _ =? 0); [simpl; auto|].
    destruct (if truthy_ostr _ then _ else _) as [i|]; [|simpl; auto].
    destruct (operations _ !! i) as [o|] eqn:Ei; [|simpl; auto].
    cbn [fst snd drawingState with_drawingState].
    destruct (decide (r = currentRoom c)) as [->|Hne].
    + rewrite log_of_insert. cbn [operations set_operations].
      intros Hin%list_elem_of_delete_inv. by left.
    + unfold log_of at 1. rewrite room_of_insert_ne by done. fold (log_of m1 r). auto.
  - by left.
  - (* disconnect *)
    rewrite log_of_removeUser. by left.
Qed.

(** X18. No message can put an operation under another user's name:
    whatever a handler leaves in a log was there before, or is in the
    sender's current room and carries the sender's user id. *)
Theorem logged_operations_carry_the_sender S2N st c env msg r op :
  op ∈ log_of (drawingState (handle S2N st c env msg).1.1) r →
  op ∈ log_of (drawingState st) r
  ∨ (r = currentRoom c ∧ userId op = conn_userId c).
Proof.
  intros [?|(? & ? & _)]%handle_log_elem; [by left|by right].
Qed.

(** Ids stay non-empty as long as the id generator gives non-empty ids. *)
Lemma handle_ids_nonempty S2N st c env msg :
  uuidv4 env ≠ "" →
  ids_nonempty (drawingState st) →
  ids_nonempty (drawingState (handle S2N st c env msg).1.1).
Proof.
  intros Huuid Hids r op [?|(_ & _ & [(old & Hold & <-)|[->|?]])]%handle_log_elem;
    eauto.
Qed.

(** *** Presence under the messages *)

Lemma users_of_undoOperation m r uid r' :
  users_of (undoOperation m r uid).2 r' = users_of m r'.
Proof.
  unfold undoOperation.
  pose proof (getRoomState_snd_lookup m r r') as Hsnd.
  pose proof (getRoomState_fst m r) as Hfst.
  destruct (getRoomState m r) as [state m1]. simpl in Hfst, Hsnd. subst state.
  assert (users_of m1 r' = users_of m r') as Hsame by (unfold users_of; by rewrite Hsnd).
  destruct (length _ =? 0); [done|].
  destruct (if truthy_ostr _ then _ else _) as [i|]; [|done].
  destruct (operations _ !! i) as [o|]; [|done]. cbn [snd].
  destruct (decide (r = r')) as [<-|Hne].
  - by rewrite users_of_insert.
  - unfold users_of at 1. rewrite room_of_insert_ne by done. exact Hsame.
Qed.

Lemma handle_users_same S2N st c env msg r :
  match msg with
  | JoinRoom _ | CursorMove _ | Disconnect => False
  | _ => True
  end →
  users_of (drawingState (handle S2N st c env msg).1.1) r
    = users_of (drawingState st) r.
Proof.
  destruct msg; simpl; try done; intros _.
  - destruct data as [[[[[| | |px|] [| | |py|]]|] col w oid]|]; simpl; try done.
    apply users_addOperation.
  - destruct (on_draw_progress_cases st c data)
      as [(_ & _ & _ & Hview)|(oid & px & py & i & o & p & _ & _ & _ & _ & _ & _ & ->)].
    + unfold users_of. by rewrite Hview.
    + cbn [fst snd drawingState with_drawingState].
      destruct (decide (currentRoom c = r)) as [<-|Hne].
      * by rewrite users_of_insert.
      * unfold users_of at 1. by rewrite room_of_insert_ne.
  - apply users_addOperation.
  - destruct data as [o|]; simpl; [|done].
    destruct (startPoint o), (endPoint o); simpl; try done. apply users_addOperation.
  - destruct data as [o|]; simpl; [|done].
    destruct (text o) as [t|], (startPoint o); simpl; try done.
    destruct (truthy_str t); [apply users_addOperation|done].
  - destruct data as [o|]; simpl; [|done].
    destruct (imageData o) as [t|], (startPoint o); simpl; try done.
    destruct (truthy_str t); [apply users_addOperation|done].
  - destruct (clear_canvas_rooms st c env) as [Hroom Hother].
    unfold users_of. destruct (decide (r = currentRoom c)) as [->|Hne].
    + by rewrite Hroom.
    + by rewrite Hother.
  - unfold on_undo.
    pose proof (users_of_undoOperation (drawingState st) (currentRoom c)
                  (Some (conn_userId c)) r) as H.
    by destruct (undoOperation _ _ _) as [[o|] m1].
Qed.

(** X19. Only [join-room], [cursor-move] and [disconnect] touch the
    users of a room.  Starting, continuing or ending a stroke, erasing,
    shapes, text, images, clearing, undoing, renaming and pinging leave
    every user record as it is, [lastSeen] included: drawing does not
    count as a sign of life. *)
Theorem presence_moves_only_on_join_cursor_disconnect S2N st c env msg r :
  match msg with
  | JoinRoom _ | CursorMove _ | Disconnect => False
  | _ => True
  end →
  users_of (drawingState (handle S2N st c env msg).1.1) r
    = users_of (drawingState st) r.
Proof.
  destruct msg; simpl; try done; intros _.
  - destruct data as [[[[[| | |px|] [| | |py|]]|] col w oid]|]; simpl; try done.
    apply users_addOperation.
  - destruct (on_draw_progress_cases st c data)
      as [(_ & _ & _ & Hview)|(oid & px & py & i & o & p & _ & _ & _ & _ & _ & _ & ->)].
    + unfold users_of. by rewrite Hview.
    + cbn [fst snd drawingState with_drawingState].
      destruct (decide (currentRoom c = r)) as [<-|Hne].
      * by rewrite users_of_insert.
      * unfold users_of at 1. by rewrite room_of_insert_ne.
  - apply users_addOperation.
  - destruct data as [o|]; simpl; [|done].
    destruct (startPoint o), (endPoint o); simpl; try done. apply users_addOperation.
  - destruct data as [o|]; simpl; [|done].
    destruct (text o) as [t|], (startPoint o); simpl; try done.
    destruct (truthy_str t); [apply users_addOperation|done].
  - destruct data as [o|]; simpl; [|done].
    destruct (imageData o) as [t|], (startPoint o); simpl; try done.
    destruct (truthy_str t); [apply users_addOperation|done].
  - destruct (clear_canvas_rooms st c env) as [Hroom Hother].
    unfold users_of. destruct (decide (r = currentRoom c)) as [->|Hne].
    + by rewrite Hroom.
    + by rewrite Hother.
  - unfold on_undo.
    pose proof (users_of_undoOperation (drawingState st) (currentRoom c)
                  (Some (conn_userId c)) r) as H.
    by destruct (undoOperation _ _ _) as [[o|] m1].
Qed.

Lemma handle_users_wf S2N st c env msg :
  users_wf (drawingState st) → users_wf (drawingState (handle S2N st c env msg).1.1).
Proof.
  intros Hwf r.
  destruct msg; try (rewrite handle_users_same by done; apply Hwf); simpl.
  - (* join-room *)
    destruct data as [v|[| | | |s] nm]; simpl; try apply Hwf.
    destruct (_ || _); [apply Hwf|]. destruct (negb _); [apply Hwf|].
    destruct (assignUserColor _ _) as [col rm2].
    match goal with
    | |- context [getStateSnapshot ?m ?rid] =>
        pose proof (room_of_getStateSnapshot m rid r) as Hs;
        destruct (getStateSnapshot m rid) as [[ops us] m2]
    end.
    simpl in *. unfold users_of. rewrite Hs.
    match goal with
    | |- context [addUser ?m ?rid ?u ?n ?cl ?t] =>
        destruct (addUser_room m rid u n cl t) as [Hroom Hother]
    end.
    destruct (decide (r = s)) as [->|Hne].
    + rewrite Hroom. simpl. apply Map_set_wf, Hwf.
    + rewrite Hother by done. apply Hwf.
  - (* cursor-move *)
    destruct (updateUserCursor_room (drawingState st) (currentRoom c) (conn_userId c)
                point (Date_now env 0)) as [Hroom Hother].
    unfold users_of. destruct (decide (r = currentRoom c)) as [->|Hne].
    + destruct (Map_get _ _); rewrite Hroom; [|apply Hwf].
      simpl. apply Map_set_wf, Hwf.
    + rewrite Hother by done. apply Hwf.
  - (* disconnect *)
    destruct (removeUser_room (drawingState st) (currentRoom c) (conn_userId c))
      as [Hroom Hother].
    unfold users_of. destruct (decide (r = currentRoom c)) as [->|Hne].
    + rewrite Hroom. simpl. apply Map_delete_wf, Hwf.
    + rewrite Hother by done. apply Hwf.
Qed.

Lemma on_connection_views st sid env r :
  log_of (drawingState (on_connection st sid env).1.1) r = log_of (drawingState st) r
  ∧ (users_wf (drawingState st) →
     Map_wf (users_of (drawingState (on_connection st sid env).1.1) r)).
Proof.
  unfold on_connection.
  destruct (assignUserColor _ _) as [col rm2].
  pose proof (log_of_getStateSnapshot (drawingState st) DEFAULT_ROOM r) as Hs.
  pose proof (room_of_getStateSnapshot (drawingState st) DEFAULT_ROOM) as Hr.
  destruct (getStateSnapshot _ _) as [[ops us] m1]. simpl in *.
  split; [by rewrite log_of_addUser|]. intros Hwf.
  match goal with
  | |- context [addUser ?m ?rid ?u ?n ?cl ?t] =>
      destruct (addUser_room m rid u n cl t) as [Hroom Hother]
  end.
  unfold users_of. destruct (decide (r = DEFAULT_ROOM)) as [->|Hne].
  + rewrite Hroom. simpl. apply Map_set_wf. unfold users_of. rewrite Hr. apply Hwf.
  + rewrite Hother, Hr by done. apply Hwf.
Qed.

(** X20. The server keeps three things true whatever the clients send:
    no log is longer than 500, no room lists a user twice, and every
    logged operation has a non-empty id (given that the id generator
    never returns the empty string).  They hold before the first
    connection, after every connection, and after every message; and a
    connection made for a socket with a non-empty id stays live, with a
    room that has a state. *)
Theorem server_invariants S2N :
  server_ok new_state
  ∧ (∀ st sid env,
       server_ok st →
       server_ok (on_connection st sid env).1.1
       ∧ room_present (on_connection st sid env).1.1 (on_connection st sid env).1.2
       ∧ (sid ≠ "" → live_conn (on_connection st sid env).1.2))
  ∧ (∀ st c env msg,
       server_ok st → uuidv4 env ≠ "" →
       server_ok (handle S2N st c env msg).1.1
       ∧ (live_conn c → live_conn (handle S2N st c env msg).1.2)
       ∧ (room_present st c →
          room_present (handle S2N st c env msg).1.1 (handle S2N st c env msg).1.2)).
Proof.
  split; [|split].
  - unfold server_ok, logs_bounded, users_wf, ids_nonempty, log_of, users_of, room_of.
    simpl. setoid_rewrite lookup_empty. simpl. repeat split.
    + intros _. lia.
    + intros _. apply NoDup_nil_2.
    + intros r op Hin. by apply elem_of_nil in Hin.
  - intros st sid env (Hb & Hu & Hi). split; [|split].
    + split; [by apply on_connection_logs_bounded|]. split.
      * intros r. by apply on_connection_views.
      * intros r op. rewrite (proj1 (on_connection_views st sid env r)). apply Hi.
    + apply on_connection_room_present.
    + apply on_connection_live.
  - intros st c env msg (Hb & Hu & Hi) Huuid. split; [|split].
    + split; [by apply handle_logs_bounded|]. split.
      * by apply handle_users_wf.
      * by apply handle_ids_nonempty.
    + apply handle_live.
    + apply handle_room_present.
Qed.

Lemma kept_all (l : list DrawingOperation) :
  Forall (λ o, id o ≠ "") l → kept (Some <$> l) = l.
Proof.
  induction 1 as [|o l Ho Hl IH]; [done|].
  unfold kept in *. rewrite fmap_cons. cbn [omap list_omap].
  rewrite (truthy_str_true _ Ho). simpl. by rewrite IH.
Qed.

(** X21. A client that loads the snapshot of a room whose operations
    all have an id holds the log of the room, whole and in order, with
    an empty undo stack; the users of the snapshot are the users of the
    room in the order in which they were added. *)
Theorem snapshot_seeds_the_mirror m r cm :
  ids_nonempty m →
  let snapshot := (getStateSnapshot m r).1.1 in
  let cm' := (Client.loadOperations cm (Some <$> snapshot)).1 in
  Client.operations cm' = log_of m r
  ∧ Client.undoStack cm' = []
  ∧ (getStateSnapshot m r).1.2 = Map_values (users_of m r).
Proof.
  intros Hids snapshot cm'. subst snapshot cm'.
  rewrite getStateSnapshot_fst. cbn [fst snd].
  rewrite loadOperations_closed_form. simpl.
  rewrite kept_all; [done|].
  apply Forall_forall. intros o Ho. by eapply Hids.
Qed.

End RelayMore.

(* ===================================================================== *)
(** ** The client's undo, redo and remote undo                            *)
(* ===================================================================== *)

Section MirrorMore.
Import JS DrawingState Observe.
Import Client (CanvasManager, loadOperations, copyOperation, redrawCanvas,
               draw_operation, undo, redo, canUndo, canRedo, removeOperation).

Implicit Types (cm : CanvasManager) (op : DrawingOperation)
  (ops : list DrawingOperation).

Lemma undo_snoc cm ops op :
  Client.operations cm = ops ++ [op] →
  let cm' :=
    {| Client.operations := ops;
       Client.undoStack := Client.undoStack cm ++ [op];
       Client.remoteOperations := Map_delete (Client.remoteOperations cm) (id op);
       Client.currentOperation := Client.currentOperation cm |} in
  undo cm = (Some op, cm', redrawCanvas cm').
Proof.
  intros Hops. unfold undo. rewrite Hops, last_snoc. simpl.
  by rewrite removelast_last.
Qed.

Lemma redo_snoc cm stack op :
  Client.undoStack cm = stack ++ [op] →
  redo cm
    = (Some op,
       {| Client.operations := Client.operations cm ++ [op];
          Client.undoStack := stack;
          Client.remoteOperations :=
            if Map_has (Client.remoteOperations cm) (id op)
            then Client.remoteOperations cm
            else Map_set (Client.remoteOperations cm) (id op) op;
          Client.currentOperation := Client.currentOperation cm |},
       draw_operation op).
Proof.
  intros Hst. unfold redo. rewrite Hst, last_snoc, removelast_last.
  by rewrite copyOperation_same.
Qed.

(** X22. [undo] moves the operation at the tail of the list, whoever
    drew it, onto the undo stack; [redo] right after brings the list and
    the stack back to what they were, and the operation is then under
    its id in the id-keyed map. *)
Theorem undo_then_redo_restores cm ops op :
  Client.operations cm = ops ++ [op] →
  let cm1 := (undo cm).1.2 in
  let cm2 := (redo cm1).1.2 in
  (undo cm).1.1 = Some op
  ∧ Client.operations cm1 = ops
  ∧ Client.undoStack cm1 = Client.undoStack cm ++ [op]
  ∧ (redo cm1).1.1 = Some op
  ∧ Client.operations cm2 = Client.operations cm
  ∧ Client.undoStack cm2 = Client.undoStack cm
  ∧ Map_get (Client.remoteOperations cm2) (id op) ≠ None.
Proof.
  intros Hops cm1 cm2. subst cm1 cm2.
  rewrite (undo_snoc cm ops op Hops). cbn [fst snd].
  erewrite redo_snoc by reflexivity. cbn [fst snd].
  simpl. rewrite Hops.
  repeat split; try done.
  unfold Map_has.
  destruct (Map_get (Map_delete (Client.remoteOperations cm) (id op)) (id op)) eqn:E;
    [by rewrite E|].
  by rewrite Map_get_set_eq.
Qed.

Lemma list_snoc_cases {A} (l : list A) : l = [] ∨ ∃ l' a, l = l' ++ [a].
Proof.
  induction l as [|a l _] using rev_ind; [by left|right]. by exists l, a.
Qed.

(** X23. With nothing in the list [undo] returns [null] and changes
    nothing, and so does [redo] with an empty undo stack; [canUndo] and
    [canRedo] say exactly when an operation comes back, and then the
    list is one shorter, or one longer. *)
Theorem undo_redo_at_the_ends cm :
  (canUndo cm = false → undo cm = (None, cm, []))
  ∧ (canUndo cm = true →
       ∃ op, (undo cm).1.1 = Some op
             ∧ S (length (Client.operations (undo cm).1.2))
                 = length (Client.operations cm))
  ∧ (canRedo cm = false → redo cm = (None, cm, []))
  ∧ (canRedo cm = true →
       ∃ op, (redo cm).1.1 = Some op
             ∧ length (Client.operations (redo cm).1.2)
                 = S (length (Client.operations cm))).
Proof.
  unfold canUndo, canRedo. repeat split.
  - destruct (Client.operations cm) eqn:E; [|done]. intros _.
    unfold undo. by rewrite E.
  - destruct (list_snoc_cases (Client.operations cm)) as [->|(l & a & E)]; [done|].
    intros _. exists a. rewrite (undo_snoc cm l a E). simpl.
    split; [done|]. rewrite E, length_app. simpl. lia.
  - destruct (Client.undoStack cm) eqn:E; [|done]. intros _.
    unfold redo. by rewrite E.
  - destruct (list_snoc_cases (Client.undoStack cm)) as [->|(l & a & E)]; [done|].
    intros _. exists a. rewrite (redo_snoc cm l a E). simpl.
    split; [done|]. rewrite length_app. simpl. lia.
Qed.

Lemma removeOperation_found cm i op oid :
  list_find (λ o, id o = oid) (Client.operations cm) = Some (i, op) →
  (removeOperation cm oid).1
    = {| Client.operations := delete i (Client.operations cm);
         Client.undoStack := Client.undoStack cm;
         Client.remoteOperations := Client.remoteOperations cm;
         Client.currentOperation := Client.currentOperation cm |}.
Proof. intros Hf. unfold removeOperation. by rewrite Hf. Qed.

Lemma find_id_unique pre op post :
  NoDup (ids (pre ++ op :: post)) →
  list_find (λ o, id o = id op) (pre ++ op :: post) = Some (length pre, op).
Proof.
  intros Hnd. apply list_find_Some.
  split; [by apply list_lookup_middle|]. split; [done|].
  intros j o Hj Hlt Hid. rewrite lookup_app_l in Hj by done.
  unfold ids in Hnd. rewrite fmap_app, fmap_cons in Hnd.
  apply NoDup_app in Hnd as (_ & Hdisj & _).
  apply (Hdisj (id op)).
  - rewrite <- Hid. apply list_elem_of_fmap. exists o. split; [done|].
    eapply list_elem_of_lookup_2, Hj.
  - by left.
Qed.

Lemma find_id_absent ops op :
  id op ∉ ids ops → list_find (λ o, id o = id op) ops = None.
Proof.
  intros Hnotin. apply list_find_None, Forall_forall. intros o Ho Hid.
  apply Hnotin. rewrite <- Hid. apply list_elem_of_fmap. by exists o.
Qed.

(** X24. [removeOperation] takes out the first operation of the list
    that has the id; with no such operation it changes nothing and calls
    no drawing routine.  The undo stack and the id-keyed map are left as
    they are either way. *)
Theorem removeOperation_takes_first_match cm oid :
  let cm' := (removeOperation cm oid).1 in
  (oid ∉ ids (Client.operations cm) → removeOperation cm oid = (cm, []))
  ∧ (∀ pre op post,
       Client.operations cm = pre ++ op :: post →
       id op = oid → oid ∉ ids pre →
       Client.operations cm' = pre ++ post)
  ∧ Client.undoStack cm' = Client.undoStack cm
  ∧ Client.remoteOperations cm' = Client.remoteOperations cm.
Proof.
  intros cm'. subst cm'. split; [|split].
  - intros Hnotin. unfold removeOperation.
    assert (list_find (λ o, id o = oid) (Client.operations cm) = None) as ->; [|done].
    apply list_find_None, Forall_forall. intros o Ho Hid.
    apply Hnotin, list_elem_of_fmap. by exists o.
  - intros pre op post Hops Hid Hpre.
    assert (list_find (λ o, id o = oid) (Client.operations cm) = Some (length pre, op))
      as Hf.
    { rewrite Hops. apply list_find_Some.
      split; [by apply list_lookup_middle|]. split; [done|].
      intros j o Hj Hlt Hido. rewrite lookup_app_l in Hj by done.
      apply Hpre. rewrite <- Hido. apply list_elem_of_fmap. exists o.
      split; [done|]. eapply list_elem_of_lookup_2, Hj. }
    rewrite (removeOperation_found _ _ _ _ Hf). simpl.
    rewrite Hops, delete_middle. done.
  - unfold removeOperation.
    destruct (list_find _ _) as [[i o]|]; by split.
Qed.

Lemma ids_not_before pre op post :
  NoDup (ids (pre ++ op :: post)) → id op ∉ ids pre.
Proof.
  unfold ids. rewrite fmap_app, fmap_cons.
  intros (_ & Hdisj & _)%NoDup_app Hin. apply (Hdisj _ Hin). by left.
Qed.

(** X25. A client whose list is the log of the room, with no id twice,
    still holds the log after the server's undo: removing the id that
    the undo broadcast carries takes out the very operation the server
    took out. *)
Theorem remote_undo_keeps_mirror_on_the_log m r u pre op post cm :
  u ≠ "" →
  log_of m r = pre ++ op :: post →
  userId op = u →
  Forall (λ o, userId o ≠ u) post →
  NoDup (ids (log_of m r)) →
  Client.operations cm = log_of m r →
  let res := undoOperation m r (Some u) in
  res.1 = Some op
  ∧ Client.operations (removeOperation cm (id op)).1 = log_of res.2 r.
Proof.
  intros Hu Hlog Hown Hpost Hnd Hcm res. subst res.
  rewrite (undoOperation_scoped m r u pre op post) by (by try apply truthy_str_true).
  cbn [fst snd]. rewrite log_of_insert. cbn [operations set_operations].
  rewrite Hlog in Hnd, Hcm.
  assert (list_find (λ o, id o = id op) (Client.operations cm) = Some (length pre, op))
    as Hf by (rewrite Hcm; by apply find_id_unique).
  rewrite (removeOperation_found _ _ _ _ Hf). simpl.
  by rewrite Hcm, delete_middle.
Qed.

Lemma ids_removelast ops : ids (removelast ops) = removelast (ids ops).
Proof.
  destruct (list_snoc_cases ops) as [->|(l & a & ->)]; [done|].
  unfold ids. rewrite fmap_app. simpl. by rewrite !removelast_last.
Qed.

(** A local [undo] followed by [removeOperation] on the id of an
    operation of the list, where no id comes twice: that operation and
    the tail are gone, or the tail alone when the operation was the
    tail. *)
Lemma undo_then_removeOperation cm pre op post :
  Client.operations cm = pre ++ op :: post →
  NoDup (ids (Client.operations cm)) →
  Client.operations (removeOperation (undo cm).1.2 (id op)).1 = pre ++ removelast post.
Proof.
  intros Hcm Hnd. rewrite Hcm in Hnd.
  destruct (list_snoc_cases post) as [->|(post' & t & ->)].
  - rewrite (undo_snoc cm pre op Hcm). cbn [fst snd]. unfold removeOperation.
    cbn [Client.operations].
    rewrite find_id_absent by (by eapply ids_not_before).
    simpl. by rewrite app_nil_r.
  - assert (Client.operations cm = (pre ++ op :: post') ++ [t]) as Hcm'
      by (rewrite Hcm, <- app_assoc; done).
    rewrite (undo_snoc cm _ t Hcm'). cbn [fst snd].
    erewrite removeOperation_found; cycle 1.
    { cbn [Client.operations]. apply find_id_unique.
      replace (pre ++ op :: post' ++ [t]) with ((pre ++ op :: post') ++ [t]) in Hnd
        by (by rewrite <- app_assoc).
      unfold ids in *. rewrite fmap_app in Hnd. by apply NoDup_app in Hnd as (? & _). }
    cbn [Client.operations]. by rewrite delete_middle, removelast_last.
Qed.

(** X26. The client that asks for an undo has run [undo] on its own list
    before the server answers, and runs [removeOperation] on the id that
    the answer carries.  Let its list hold the ids of the room's log, in
    the order of the log, and let the log have no id twice; the records
    under these ids may differ from the server's, as the client's own
    do.  When the tail of the log was the sender's latest operation, the
    answer finds nothing left to remove and the list again holds the ids
    of the server's log; when the tail was somebody else's, the answer
    removes the sender's operation as well, and the list is one
    operation short of the log. *)
Theorem local_undo_then_echo m r u pre op post cm :
  u ≠ "" →
  log_of m r = pre ++ op :: post →
  userId op = u →
  Forall (λ o, userId o ≠ u) post →
  NoDup (ids (log_of m r)) →
  ids (Client.operations cm) = ids (log_of m r) →
  let log' := log_of (undoOperation m r (Some u)).2 r in
  let cm' := (removeOperation (undo cm).1.2 (id op)).1 in
  log' = pre ++ post
  ∧ ids (Client.operations cm') = ids (pre ++ removelast post)
  ∧ (post = [] → ids (Client.operations cm') = ids log')
  ∧ (post ≠ [] → S (length (Client.operations cm')) = length log').
Proof.
  intros Hu Hlog Hown Hpost Hnd Hcm log' cm'. subst log' cm'.
  rewrite (undoOperation_scoped m r u pre op post) by (by try apply truthy_str_true).
  cbn [snd]. rewrite log_of_insert. cbn [operations set_operations].
  split; [done|].
  rewrite <- Hcm in Hnd. rewrite Hlog in Hcm.
  unfold ids in Hcm. rewrite fmap_app, fmap_cons in Hcm.
  apply fmap_app_inv in Hcm as (cpre & crest & Hpre & Hrest & Hops).
  symmetry in Hrest. apply fmap_cons_inv in Hrest as (cop & cpost & Hcop & Hcpost & ->).
  assert (ids (Client.operations (removeOperation (undo cm).1.2 (id op)).1)
            = ids (pre ++ removelast post)) as Hres.
  { rewrite Hcop.
    rewrite (undo_then_removeOperation cm cpre cop cpost Hops Hnd).
    unfold ids. rewrite !fmap_app. fold (ids (removelast cpost)) (ids (removelast post)).
    rewrite !ids_removelast. unfold ids. by rewrite <- Hpre, Hcpost. }
  split; [exact Hres|]. split.
  - intros ->. rewrite Hres. simpl. by rewrite app_nil_r.
  - intros Hne. apply (f_equal length) in Hres. unfold ids in Hres.
    rewrite !length_fmap in Hres. rewrite Hres.
    destruct (list_snoc_cases post) as [->|(post' & t & ->)]; [done|].
    rewrite removelast_last, !length_app. simpl. lia.
Qed.

End MirrorMore.

(* ===================================================================== *)
(** ** More worked instances                                              *)
(* ===================================================================== *)

Section MoreInstances.
Import JS DrawingState Rooms Server Observe.

(** Removing [u1] from the room of two leaves [u2]. *)
Lemma removeUser_forgets_witness :
  users_of (removeUser crowd "room" "u1") "room" = [("u2", sample_user "u2" 50000)].
Proof.
  destruct (removeUser_forgets crowd "room" "u1") as (_ & -> & _).
  - apply (bool_decide_unpack _). vm_compute. exact I.
  - vm_compute. reflexivity.
Defined.

(** At time 40000 the user last seen at 1000 is swept, the one seen at
    50000 stays. *)
Lemma cleanupInactiveUsers_sweeps_witness :
  users_of (cleanupInactiveUsers crowd "room" 40000) "room"
    = [("u2", sample_user "u2" 50000)].
Proof.
  destruct (cleanupInactiveUsers_sweeps crowd "room" 40000) as (-> & _).
  - apply (bool_decide_unpack _). vm_compute. exact I.
  - vm_compute. reflexivity.
Defined.

(** The eleventh user shares the color of the first. *)
Lemma palette_round_robin_witness :
  getUserColor (assign_all new_room_manager eleven) "k" = Some "#FF6B6B"
  ∧ getUserColor (assign_all new_room_manager eleven) "a" = Some "#FF6B6B".
Proof.
  split.
  - rewrite (palette_round_robin eleven 10 "k"); [reflexivity| |reflexivity].
    apply (bool_decide_unpack _). vm_compute. exact I.
  - rewrite (palette_round_robin eleven 0 "a"); [reflexivity| |reflexivity].
    apply (bool_decide_unpack _). vm_compute. exact I.
Defined.

Lemma room_id_ok_lobby : room_id_ok (JStr "lobby-2").
Proof.
  exists "lobby-2". split; [done|]. split; [done|]. split; [simpl; lia|].
  repeat constructor.
Defined.

(** [u1] moves from "room" to "lobby-2" and is still listed in "room". *)
Lemma join_room_switches_witness :
  let res := on_join_room crowd_state (conn_of "u1") env0
               (JoinObject (JStr "lobby-2") (Some "Ann")) in
  currentRoom res.1.2 = "lobby-2"
  ∧ userName res.1.2 = "Ann"
  ∧ users_of (drawingState res.1.1) "room" = users_of crowd "room".
Proof.
  destruct (join_room_switches crowd_state (conn_of "u1") env0 "lobby-2" (Some "Ann")
              room_id_ok_lobby)
    as (ucolor & now & Hc & _ & _ & _ & Hothers & _).
  intros res. subst res. rewrite Hc. cbn [currentRoom userName].
  split; [done|]. split; [done|]. by apply Hothers.
Defined.

(** A [draw-start] without a point: the error is all there is. *)
Lemma error_event_changes_nothing_witness :
  handle no_coercion crowd_state (conn_of "u1") env0 (DrawStart None)
    = (crowd_state, conn_of "u1", [error_to_sender "Invalid draw-start data"]).
Proof.
  apply (error_event_changes_nothing no_coercion crowd_state (conn_of "u1") env0
           (DrawStart None) (error_to_sender "Invalid draw-start data")).
  - simpl. by left.
  - reflexivity.
Defined.

(** The only event of a [clear-canvas] that the sender gets back. *)
Lemma sender_gets_no_echo_witness :
  "clear-canvas" ∈ ["error"; "room-state"; "pong"; "clear-canvas"; "undo"].
Proof.
  apply (sender_gets_no_echo no_coercion crowd_state (conn_of "u1") env0 ClearCanvas
           {| target := ToEveryoneIn "room"; event := "clear-canvas";
              payload := POperation (bare_op "uuid-0" "u1" clear 1700000000000) |}).
  - simpl. by left.
  - vm_compute. reflexivity.
Defined.

(** [u2] adds the point (-3, 7/2) to its stroke B: it is stored as (0, 7/2). *)
Lemma draw_progress_appends_to_own_stroke_witness :
  let res := on_draw_progress crowd_state (conn_of "u2")
               (Some {| dp_operationId := Some "B";
                        dp_point := Some {| raw_x := JNum (-3); raw_y := JNum (7 # 2) |} |}) in
  log_of (drawingState res.1.1) "room" !! 1
    = Some (set_path opB [ {| x := 1; y := 2; pressure := None |};
                           {| x := 0; y := 7 # 2; pressure := None |} ])
  ∧ log_of (drawingState res.1.1) "room" !! 0 = Some opA.
Proof.
  destruct (draw_progress_appends_to_own_stroke crowd_state (conn_of "u2") "B"
              (-3) (7 # 2) 1 opB [ {| x := 1; y := 2; pressure := None |} ])
    as (H1 & Hother & _).
  - discriminate.
  - vm_compute. reflexivity.
  - reflexivity.
  - reflexivity.
  - simpl. lia.
  - intros res. subst res. split; [exact H1|].
    cbn [currentRoom conn_of] in Hother. rewrite Hother by lia. vm_compute. reflexivity.
Defined.

(** A stroke of 10000 points takes no further point. *)
Lemma draw_progress_stops_at_cap_witness :
  (on_draw_progress (state_with [full_stroke]) (conn_of "u1")
     (Some {| dp_operationId := Some "A";
              dp_point := Some {| raw_x := JNum 3; raw_y := JNum 4 |} |})).2 = [].
Proof.
  apply (draw_progress_stops_at_cap (state_with [full_stroke]) (conn_of "u1") "A"
           (Some {| raw_x := JNum 3; raw_y := JNum 4 |}) 0 full_stroke
           (replicate 10000 {| x := 1; y := 2; pressure := None |})).
  - vm_compute. reflexivity.
  - reflexivity.
  - apply Z.leb_le. vm_compute. reflexivity.
Defined.

(** A stroke of three points, one of them left of the canvas, seen by a
    client that joins afterwards. *)
Lemma stroke_reaches_late_joiner_witness :
  let start := Some {| ds_point := Some {| raw_x := JNum 1; raw_y := JNum 2 |};
                       ds_color := JStr "#112233"; ds_lineWidth := JNum 5;
                       ds_operationId := Some "s1" |} in
  let st1 := (on_draw_start no_coercion crowd_state (conn_of "u1") env0 start).1.1 in
  let st2 := progress_all st1 (conn_of "u1") (progress_of "s1" [(3%Q, 4%Q); ((-5)%Q, 6%Q)]) in
  let snapshot := (getStateSnapshot (drawingState st2) "room").1.1 in
  ∃ op,
    last (Client.operations (Client.loadOperations (mirror_of []) (Some <$> snapshot)).1)
      = Some op
    ∧ path op = Some [ {| x := 1; y := 2; pressure := None |};
                       {| x := 3; y := 4; pressure := None |};
                       {| x := 0; y := 6; pressure := None |} ].
Proof.
  destruct (stroke_reaches_late_joiner no_coercion crowd_state (conn_of "u1") env0 "s1"
              (JStr "#112233") (JNum 5) (1%Q, 2%Q) [(3%Q, 4%Q); ((-5)%Q, 6%Q)] (mirror_of []))
    as (op & _ & _ & _ & Hpath & Hlast).
  - discriminate.
  - vm_compute. repeat constructor; discriminate.
  - simpl. lia.
  - exists op. split; [exact Hlast|exact Hpath].
Defined.

(** [u1] undoes on the log [A(u1), B(u2)]: A goes, everyone hears of it. *)
Lemma undo_removes_and_broadcasts_witness :
  log_of (drawingState (on_undo crowd_state (conn_of "u1")).1.1) "room" = [opB]
  ∧ (on_undo crowd_state (conn_of "u1")).2
      = [ {| target := ToEveryoneIn "room"; event := "undo";
             payload := PUndo "A" "u1" |} ].
Proof.
  destruct (undo_removes_and_broadcasts crowd_state (conn_of "u1") [] opA [opB])
    as (Hlog & _ & _ & _ & Hemit & _).
  - discriminate.
  - vm_compute. reflexivity.
  - reflexivity.
  - repeat constructor. discriminate.
  - split; [exact Hlog|exact Hemit].
Defined.

(** A text sent by [u2] under the name of [u1] is logged as [u2]'s. *)
Lemma logged_operations_carry_the_sender_witness :
  let forged := {| id := "t1"; userId := "u1"; type := text_op; timestamp := 0;
                   path := None; color := None; lineWidth := None;
                   eraserRadius := None;
                   startPoint := Some {| x := 1; y := 1; pressure := None |};
                   endPoint := None; text := Some "hi"; fontSize := None;
                   imageData := None; imageWidth := None; imageHeight := None |} in
  let st' := (handle no_coercion crowd_state (conn_of "u2") env0 (Text (Some forged))).1.1 in
  let logged := stamp forged "t1" "u2" 1700000000000 in
  last (log_of (drawingState st') "room") = Some logged ∧ userId logged = "u2".
Proof.
  intros forged st' logged. split; [vm_compute; reflexivity|].
  destruct (logged_operations_carry_the_sender no_coercion crowd_state (conn_of "u2")
              env0 (Text (Some forged)) "room" logged) as [Hold|[_ Hown]].
  - apply last_Some_elem_of. vm_compute. reflexivity.
  - exfalso. vm_compute in Hold.
    apply elem_of_cons in Hold as [Hold|Hold]; [discriminate Hold|].
    apply elem_of_cons in Hold as [Hold|Hold]; [discriminate Hold|].
    by apply elem_of_nil in Hold.
  - exact Hown.
Defined.

(** Starting a stroke leaves both users of the room as they were. *)
Lemma presence_moves_only_on_join_cursor_disconnect_witness :
  users_of (drawingState
              (handle no_coercion crowd_state (conn_of "u1") env0
                 (Erase {| er_point := {| x := 1; y := 1; pressure := None |};
                           er_radius := 10 |})).1.1) "room"
    = users_of crowd "room".
Proof.
  apply (presence_moves_only_on_join_cursor_disconnect no_coercion crowd_state
           (conn_of "u1") env0
           (Erase {| er_point := {| x := 1; y := 1; pressure := None |};
                     er_radius := 10 |}) "room").
  exact I.
Defined.

Lemma crowd_ids_nonempty : ids_nonempty crowd.
Proof.
  intros r op Hin. unfold log_of, room_of, crowd in Hin.
  destruct (decide (r = "room")) as [->|Hne].
  - vm_compute in Hin.
    apply elem_of_cons in Hin as [->|Hin]; [discriminate|].
    apply elem_of_cons in Hin as [->|Hin]; [discriminate|].
    by apply elem_of_nil in Hin.
  - rewrite lookup_singleton_ne in Hin by done. by apply elem_of_nil in Hin.
Defined.

(** A client that loads the snapshot of the room of two holds both
    operations. *)
Lemma snapshot_seeds_the_mirror_witness :
  Client.operations
    (Client.loadOperations (mirror_of [])
       (Some <$> (getStateSnapshot crowd "room").1.1)).1
  = [opA; opB].
Proof.
  destruct (snapshot_seeds_the_mirror crowd "room" (mirror_of []) crowd_ids_nonempty)
    as (-> & _).
  vm_compute. reflexivity.
Defined.

(** Undo and redo on a list of two. *)
Lemma undo_then_redo_restores_witness :
  Client.operations (Client.undo (mirror_of [opA; opB])).1.2 = [opA]
  ∧ Client.operations (Client.redo (Client.undo (mirror_of [opA; opB])).1.2).1.2
      = [opA; opB].
Proof.
  destruct (undo_then_redo_restores (mirror_of [opA; opB]) [opA] opB eq_refl)
    as (_ & H1 & _ & _ & H2 & _).
  split; [exact H1|exact H2].
Defined.

Lemma abc_ids_NoDup : NoDup (ids (log_of (room_with [opA; opB; opC]) "room")).
Proof. apply (bool_decide_unpack _). vm_compute. exact I. Defined.

(** On the log [A(u1), B(u2), C(u1)] the undo of [u1] removes C on the
    server and on a client that holds the log. *)
Lemma remote_undo_keeps_mirror_on_the_log_witness :
  Client.operations (Client.removeOperation (mirror_of [opA; opB; opC]) "C").1
    = [opA; opB].
Proof.
  destruct (remote_undo_keeps_mirror_on_the_log (room_with [opA; opB; opC]) "room" "u1"
              [opA; opB] opC [] (mirror_of [opA; opB; opC]))
    as (_ & Hops).
  - discriminate.
  - vm_compute. reflexivity.
  - reflexivity.
  - constructor.
  - exact abc_ids_NoDup.
  - vm_compute. reflexivity.
  - etransitivity; [exact Hops|]. vm_compute. reflexivity.
Defined.

Lemma ab_ids_NoDup : NoDup (ids (log_of crowd "room")).
Proof. apply (bool_decide_unpack _). vm_compute. exact I. Defined.

(** On the log [A(u1), B(u2)], [u1] undoes.  Its own list holds its own
    record of A and the server's record of B: it drops B at once and A
    when the answer comes, while the server keeps B. *)
Lemma local_undo_then_echo_witness :
  log_of (undoOperation crowd "room" (Some "u1")).2 "room" = [opB]
  ∧ ids (Client.operations
           (Client.removeOperation
              (Client.undo (mirror_of [local_stroke "A"; opB])).1.2 "A").1) = [].
Proof.
  destruct (local_undo_then_echo crowd "room" "u1" [] opA [opB]
              (mirror_of [local_stroke "A"; opB]))
    as (Hlog & Hops & _).
  - discriminate.
  - vm_compute. reflexivity.
  - reflexivity.
  - repeat constructor. discriminate.
  - exact ab_ids_NoDup.
  - vm_compute. reflexivity.
  - split; [exact Hlog|exact Hops].
Defined.

End MoreInstances.
